(** * rest/server.go: route registration and middleware composition

    A shallow embedding of [src/rest/server.go] of go-zero.

    Go values are modelled as follows.
    - A [string] is Go's byte string; [String.length] is Go's [len].
    - A Go function that may [panic] is a function into [outcome]: it either
      finishes with a value and a final state, or panics with the value
      passed to [panic] and the state reached at that point.
    - A slice of routes passed between functions ([rs ...Route], [[]Route])
      is a reference into a store of backing arrays ([store]); [make]
      allocates a fresh array and [routes[i] = ...] writes in place.
    - [*featuredRoutes] and [*Server] are threaded as explicit state. *)

From Stdlib Require Import String Ascii List Arith Lia.
From stdpp Require Import base option list gmap.
Import ListNotations.

Local Open Scope string_scope.
Local Open Scope list_scope.
Local Open Scope nat_scope.

(** ** Panicking, state-passing computations *)

(** [error] values: [http.ErrServerClosed] is a sentinel compared by
    identity; every other error is told apart by what it is. *)
Inductive error : Type :=
| ErrServerClosed
| Err (msg : string).

(** What [panic] is called with in this file. *)
Inductive panicValue : Type :=
| PString (s : string)
| PError (e : error)
| PRuntime (s : string).

Inductive outcome (S A : Type) : Type :=
| Done (a : A) (s : S)
| Panicked (v : panicValue) (s : S).

Arguments Done {S A} a s.
Arguments Panicked {S A} v s.

Definition M (S A : Type) : Type := S -> outcome S A.

Definition ret {S A} (a : A) : M S A := fun s => Done a s.

Definition bind {S A B} (m : M S A) (k : A -> M S B) : M S B :=
  fun s => match m s with
           | Done a s' => k a s'
           | Panicked v s' => Panicked v s'
           end.

Definition panic {S A} (v : panicValue) : M S A := fun s => Panicked v s.

Definition get {S} : M S S := fun s => Done s s.
Definition put {S} (s : S) : M S unit := fun _ => Done tt s.
Definition modify {S} (f : S -> S) : M S unit := fun s => Done tt (f s).

Declare Scope go_scope.
Delimit Scope go_scope with go.
Notation "'let*' x ':=' m 'in' k" := (bind m (fun x => k))
  (at level 10, x name, m at level 100, k at level 200) : go_scope.
Notation "'do' m 'then' k" := (bind m (fun _ => k))
  (at level 10, m at level 100, k at level 200) : go_scope.
Local Open Scope go_scope.

(** Runs the steps of a [for _, x := range xs] loop whose body is [body]. *)
Fixpoint forRange {S A} (xs : list A) (body : A -> M S unit) : M S unit :=
  match xs with
  | [] => ret tt
  | x :: xs' => do body x then forRange xs' body
  end.

(** ** Go's [path] package: [Clean] and [Join]

    [WithPrefix] calls [path.Join] of Go's standard library, which is
    [path.Clean] of the elements joined by slashes.  They are transcribed
    here from the library's [path/path.go], on byte lists. *)

Module path.

Abbreviation bytes := (list ascii).

Definition slash : ascii := "/"%char.
Definition dot : ascii := "."%char.

(** [p[i] == c], for an index the caller has guarded. *)
Definition is_at (p : bytes) (i : nat) (c : ascii) : bool :=
  bool_decide (p !! i = Some c).

(** [lazybuf]: the output buffer, as its byte array [buf] and the write
    position [w]; its contents are the first [w] bytes.  (The library
    shares the bytes with the input until they differ; only the logical
    array is modelled.) *)
Record lazybuf : Type := mkbuf { buf : bytes; w : nat }.

Definition append (b : lazybuf) (c : ascii) : lazybuf :=
  {| buf := take (w b) (buf b) ++ [c]; w := S (w b) |}.

Definition to_bytes (b : lazybuf) : bytes := take (w b) (buf b).

(** [for out.w > dotdot && out.index(out.w) != '/' { out.w-- }],
    by recursion on [out.w]. *)
Fixpoint backup (dotdot : nat) (bf : bytes) (w : nat) : nat :=
  match w with
  | 0 => 0
  | S w' =>
      if (dotdot <? w) && negb (bool_decide (bf !! w = Some slash))
      then backup dotdot bf w'
      else w
  end.

(** [for ; r < n && path[r] != '/'; r++ { out.append(path[r]) }];
    [k] is [n - r], so [r < n] is [k] being a successor. *)
Fixpoint copy_elem (k : nat) (p : bytes) (r : nat) (out : lazybuf)
  : nat * lazybuf :=
  match k with
  | 0 => (r, out)
  | S k' =>
      match p !! r with
      | Some c =>
          if bool_decide (c = slash) then (r, out)
          else copy_elem k' p (S r) (append out c)
      | None => (r, out)
      end
  end.

Record state : Type := mkstate { r : nat; dotdot : nat; out : lazybuf }.

(** One iteration of the body of [for r < n { switch ... }]. *)
Definition step (p : bytes) (rooted : bool) (s : state) : state :=
  let n := length p in
  let r := r s in
  if is_at p r slash then
    (* empty path element *)
    {| r := r + 1; dotdot := dotdot s; out := out s |}
  else if is_at p r dot && ((r + 1 =? n) || is_at p (r + 1) slash) then
    (* . element *)
    {| r := r + 1; dotdot := dotdot s; out := out s |}
  else if is_at p r dot && is_at p (r + 1) dot
          && ((r + 2 =? n) || is_at p (r + 2) slash) then
    (* .. element: remove to last / *)
    if dotdot s <? w (out s) then
      (* can backtrack *)
      {| r := r + 2; dotdot := dotdot s;
         out := {| buf := buf (out s);
                   w := backup (dotdot s) (buf (out s)) (w (out s) - 1) |} |}
    else if negb rooted then
      (* cannot backtrack, but not rooted, so append .. element *)
      let o1 := if 0 <? w (out s) then append (out s) slash else out s in
      let o2 := append (append o1 dot) dot in
      {| r := r + 2; dotdot := w o2; out := o2 |}
    else
      {| r := r + 2; dotdot := dotdot s; out := out s |}
  else
    (* real path element; add slash if needed *)
    let o1 :=
      if (rooted && negb (w (out s) =? 1))
         || (negb rooted && negb (w (out s) =? 0))
      then append (out s) slash else out s in
    let (r', o2) := copy_elem (n - r) p r o1 in
    {| r := r'; dotdot := dotdot s; out := o2 |}.

(** [for r < n { ... }]; [None] only when [fuel] iterations do not reach
    [r >= n]. *)
Fixpoint loop (fuel : nat) (p : bytes) (rooted : bool) (s : state)
  : option state :=
  if r s <? length p then
    match fuel with
    | 0 => None
    | S fuel' => loop fuel' p rooted (step p rooted s)
    end
  else Some s.

Definition init (rooted : bool) : state :=
  if rooted
  then {| r := 1; dotdot := 1; out := append (mkbuf [] 0) slash |}
  else {| r := 0; dotdot := 0; out := mkbuf [] 0 |}.

(** [Clean] on bytes.  Every iteration advances [r], so [length p]
    iterations suffice ([loop_enough] below): the [None] branch is never
    taken. *)
Definition clean (p : bytes) : bytes :=
  match p with
  | [] => [dot]
  | c :: _ =>
      let rooted := bool_decide (c = slash) in
      match loop (length p) p rooted (init rooted) with
      | Some s => if w (out s) =? 0 then [dot] else to_bytes (out s)
      | None => []
      end
  end.

Definition Clean (p : string) : string :=
  string_of_list_ascii (clean (list_ascii_of_string p)).

(** The loop of [Join] over its elements, building [buf]. *)
Fixpoint join_elems (elem : list bytes) (bf : bytes) : bytes :=
  match elem with
  | [] => bf
  | e :: elem' =>
      if (0 <? length bf) || negb (bool_decide (e = []))
      then join_elems elem'
             ((if 0 <? length bf then bf ++ [slash] else bf) ++ e)
      else join_elems elem' bf
  end.

Definition join (elem : list bytes) : bytes :=
  let size := list_sum (map (@length ascii) elem) in
  if size =? 0 then [] else clean (join_elems elem []).

Definition Join (elem : list string) : string :=
  string_of_list_ascii (join (map list_ascii_of_string elem)).

(** *** Vocabulary of the normal form

    No two adjacent bytes are both separators. *)
Definition no_double (c : bytes) : Prop :=
  forall i, c !! i = Some slash -> c !! S i = Some slash -> False.

(** A trailing separator only as the root [/]. *)
Definition ends_ok (c : bytes) : Prop :=
  last c = Some slash -> c = [slash].

(** The output starts with a separator exactly when the path is rooted. *)
Definition first_ok (rooted : bool) (c : bytes) : Prop :=
  if rooted then c !! 0 = Some slash else c !! 0 <> Some slash.

(** The separator that [Clean] writes before an element when the output
    holds [c]. *)
Definition sep_for (rooted : bool) (c : bytes) : bytes :=
  if (rooted && negb (length c =? 1)) || (negb rooted && negb (length c =? 0))
  then [slash] else [].

(** What holds of the state of [Clean] between iterations. *)
Record inv (rooted : bool) (s : state) : Prop := mkinv {
  inv_w : w (out s) <= length (buf (out s));
  inv_dotdot : dotdot s <= w (out s);
  inv_no_double : no_double (to_bytes (out s));
  inv_ends : ends_ok (to_bytes (out s));
  inv_dotdot_ends : ends_ok (take (dotdot s) (buf (out s)));
  inv_first : first_ok rooted (to_bytes (out s));
  inv_rooted : rooted = true -> 1 <= dotdot s
}.

(** The properties of a path as a string. *)
Definition has_double_slash (p : string) : Prop :=
  exists a b, list_ascii_of_string p = a ++ [slash; slash] ++ b.

Definition has_trailing_slash (p : string) : Prop :=
  exists a, list_ascii_of_string p = a ++ [slash].

End path.

(** ** Handlers, middlewares and routes *)

Section Rest.

(** [Request] is what a handler receives ([*http.Request]); [World] is
    everything a handler can change (the response writer, logs, ...). *)
Context {Request World : Type}.

(** [http.HandlerFunc]: [None] is the nil function value. *)
Definition HandlerFunc : Type := option (Request -> M World unit).

(** Calling a handler value; calling nil panics in Go. *)
Definition call (h : HandlerFunc) (r : Request) : M World unit :=
  match h with
  | Some f => f r
  | None =>
      panic (PRuntime "invalid memory address or nil pointer dereference")
  end.

(** [Middleware func(next http.HandlerFunc) http.HandlerFunc]. *)
Definition Middleware : Type := HandlerFunc -> HandlerFunc.

(** Modelled from the spec: [Route] is declared in [rest/types.go], which is
    not part of this file; its fields are those of the literals of
    server.go and of the spec's data model (section 3). *)
Record Route : Type := mkRoute {
  Method : string;
  Path : string;
  Handler : HandlerFunc
}.

(** The zero value of [Route], which [make] fills a new array with. *)
Definition zeroRoute : Route :=
  {| Method := ""; Path := ""; Handler := None |}.

(** *** The store of route arrays *)

(** Arrays are named by numbers; a store maps the names in use to the
    arrays' contents. *)
Abbreviation loc := nat.
Abbreviation store := (gmap nat (list Route)).

(** A slice of routes: nil, or a reference to a whole backing array. *)
Definition slice : Type := option loc.

(** The elements a slice denotes in a store. *)
Definition elems (st : store) (rs : slice) : list Route :=
  match rs with
  | Some l => default [] (st !! l)
  | None => []
  end.

(** [make([]Route, n)]: a fresh array of [n] zero routes. *)
Definition make (n : nat) : M store slice :=
  fun st => let l := fresh (dom st) in
            Done (Some l) (<[l := replicate n zeroRoute]> st).

(** [rs[i]]; out of range panics. *)
Definition index (rs : slice) (i : nat) : M store Route :=
  fun st => match elems st rs !! i with
            | Some r => Done r st
            | None => Panicked (PRuntime "index out of range") st
            end.

(** [rs[i] = r]; out of range panics. *)
Definition assign (rs : slice) (i : nat) (r : Route) : M store unit :=
  fun st => match rs with
            | Some l =>
                if decide (i < length (elems st rs))
                then Done tt (<[l := <[i := r]> (elems st rs)]> st)
                else Panicked (PRuntime "index out of range") st
            | None => Panicked (PRuntime "index out of range") st
            end.

(** [len(rs)]. *)
Definition len (rs : slice) : M store nat :=
  fun st => Done (length (elems st rs)) st.

(** *** WithMiddleware, WithMiddlewares (server.go:127-149) *)

Definition WithMiddleware (middleware : Middleware) (rs : slice)
  : M store slice :=
  let* n := len rs in
  let* routes := make n in
  do forRange (seq 0 n) (fun i =>
       let* route := index rs i in
       assign routes i {| Method := Method route;
                          Path := Path route;
                          Handler := middleware (Handler route) |})
  then ret routes.

(** The loop [for i := len(ms) - 1; i >= 0; i--]; the argument [n] is
    [i + 1], so the guard [i >= 0] is [n] being a successor. *)
Fixpoint WithMiddlewares_from (ms : list Middleware) (n : nat) (rs : slice)
  : M store slice :=
  match n with
  | 0 => ret rs
  | S i =>
      match ms !! i with
      | Some m =>
          let* rs' := WithMiddleware m rs in WithMiddlewares_from ms i rs'
      | None => panic (PRuntime "index out of range")
      end
  end.

Definition WithMiddlewares (ms : list Middleware) (rs : slice)
  : M store slice :=
  WithMiddlewares_from ms (length ms) rs.

(** *** Vocabulary of the ordering property *)

(** The route that [WithMiddleware] builds from [route]: the same method
    and path, and the handler wrapped by [mw]. *)
Definition wrapped (mw : Middleware) (route : Route) : Route :=
  {| Method := Method route;
     Path := Path route;
     Handler := mw (Handler route) |}.

(** [nest [m1; ...; mn] h] is [m1 (... (mn h))]: the first middleware is
    the outermost wrapper. *)
Definition nest (ms : list Middleware) (h : HandlerFunc) : HandlerFunc :=
  fold_right (fun (m : Middleware) (next : HandlerFunc) => m next) h ms.

(** The middleware with a pre-phase and a post-phase,
    [func(next) { return func(w, r) { pre; next(w, r); post } }]. *)
Definition phased (p : (Request -> M World unit) * (Request -> M World unit))
  : Middleware :=
  fun next => Some (fun r => do fst p r then do call next r then snd p r).

(** *** featuredRoutes and the route options *)

(** [time.Duration] and [PrivateKeyConf] are only copied by server.go. *)

Context {Duration PrivateKeyConf : Type}.

(** Modelled from the spec: [jwtSetting], [SignatureConf],
    [signatureSetting] and [featuredRoutes] are declared in [rest/types.go]
    and [rest/config.go], which are not part of this file; the records have
    the fields that server.go reads and writes, which are those of the
    spec's data model (section 3).  [routes] holds the elements of the
    slice: the options replace the field and never write through it. *)
Record jwtSetting : Type := mkJwt {
  jwt_enabled : bool;
  jwt_secret : string;
  jwt_prevSecret : string
}.

Record SignatureConf : Type := mkSignatureConf {
  Strict : bool;
  Expiry : Duration;
  PrivateKeys : list PrivateKeyConf
}.

(** [signatureSetting] embeds [SignatureConf] and adds [enabled]. *)
Record signatureSetting : Type := mkSignature {
  signature_conf : SignatureConf;
  signature_enabled : bool
}.

Record featuredRoutes : Type := mkFeatured {
  priority : bool;
  jwt : jwtSetting;
  signature : signatureSetting;
  routes : list Route
}.

(** [RouteOption func(r *featuredRoutes)]. *)
Definition RouteOption : Type := M featuredRoutes unit.

(** Field assignments through [r]. *)
Definition set_priority (b : bool) (r : featuredRoutes) : featuredRoutes :=
  {| priority := b; jwt := jwt r; signature := signature r;
     routes := routes r |}.
Definition set_jwt (f : jwtSetting -> jwtSetting) (r : featuredRoutes)
  : featuredRoutes :=
  {| priority := priority r; jwt := f (jwt r); signature := signature r;
     routes := routes r |}.
Definition set_signature (f : signatureSetting -> signatureSetting)
  (r : featuredRoutes) : featuredRoutes :=
  {| priority := priority r; jwt := jwt r; signature := f (signature r);
     routes := routes r |}.
Definition set_routes (rs : list Route) (r : featuredRoutes)
  : featuredRoutes :=
  {| priority := priority r; jwt := jwt r; signature := signature r;
     routes := rs |}.

Definition set_jwt_enabled (b : bool) (j : jwtSetting) : jwtSetting :=
  {| jwt_enabled := b; jwt_secret := jwt_secret j;
     jwt_prevSecret := jwt_prevSecret j |}.
Definition set_jwt_secret (s : string) (j : jwtSetting) : jwtSetting :=
  {| jwt_enabled := jwt_enabled j; jwt_secret := s;
     jwt_prevSecret := jwt_prevSecret j |}.
Definition set_jwt_prevSecret (s : string) (j : jwtSetting) : jwtSetting :=
  {| jwt_enabled := jwt_enabled j; jwt_secret := jwt_secret j;
     jwt_prevSecret := s |}.

Definition set_signature_enabled (b : bool) (g : signatureSetting)
  : signatureSetting :=
  {| signature_conf := signature_conf g; signature_enabled := b |}.
Definition set_conf (f : SignatureConf -> SignatureConf)
  (g : signatureSetting) : signatureSetting :=
  {| signature_conf := f (signature_conf g);
     signature_enabled := signature_enabled g |}.
Definition set_Strict (b : bool) (c : SignatureConf) : SignatureConf :=
  {| Strict := b; Expiry := Expiry c; PrivateKeys := PrivateKeys c |}.
Definition set_Expiry (d : Duration) (c : SignatureConf) : SignatureConf :=
  {| Strict := Strict c; Expiry := d; PrivateKeys := PrivateKeys c |}.
Definition set_PrivateKeys (ks : list PrivateKeyConf) (c : SignatureConf)
  : SignatureConf :=
  {| Strict := Strict c; Expiry := Expiry c; PrivateKeys := ks |}.

(** server.go:238-242 *)
Definition validateSecret {S} (secret : string) : M S unit :=
  if String.length secret <? 8
  then panic (PString "secret's length can't be less than 8")
  else ret tt.

(** server.go:106-112 *)
Definition WithJwt (secret : string) : RouteOption :=
  do validateSecret secret then
  do modify (set_jwt (set_jwt_enabled true)) then
  modify (set_jwt (set_jwt_secret secret)).

(** server.go:116-125 *)
Definition WithJwtTransition (secret prevSecret : string) : RouteOption :=
  do validateSecret secret then
  do modify (set_jwt (set_jwt_enabled true)) then
  do modify (set_jwt (set_jwt_secret secret)) then
  modify (set_jwt (set_jwt_prevSecret prevSecret)).

(** server.go:166-179.  [var routes []Route] starts nil and grows by
    [append] in the loop. *)
Definition WithPrefix (group : string) : RouteOption :=
  let* r := get in
  let routes' :=
    fold_left (fun (acc : list Route) (rt : Route) =>
                 let p := path.Join [group; Path rt] in
                 acc ++ [ {| Method := Method rt;
                             Path := p;
                             Handler := Handler rt |} ])
              (routes r) [] in
  modify (set_routes routes').

(** server.go:182-186 *)
Definition WithPriority : RouteOption :=
  modify (set_priority true).

(** server.go:198-205 *)
Definition WithSignature (sig : SignatureConf) : RouteOption :=
  do modify (set_signature (set_signature_enabled true)) then
  do modify (set_signature (set_conf (set_Strict (Strict sig)))) then
  do modify (set_signature (set_conf (set_Expiry (Expiry sig)))) then
  modify (set_signature (set_conf (set_PrivateKeys (PrivateKeys sig)))).

(** The option loop of [AddRoutes] (server.go:67-72): the options run in
    order on [featuredRoutes{routes: rs}]. *)
Definition applyRouteOptions (opts : list RouteOption) : M featuredRoutes unit :=
  forRange opts (fun opt => opt).

(** *** Vocabulary of the option properties

    The route that [WithPrefix] builds from [rt]. *)
Definition prefixed (group : string) (rt : Route) : Route :=
  {| Method := Method rt;
     Path := path.Join [group; Path rt];
     Handler := Handler rt |}.

(** The four options that the commutation property ranges over, and the
    function of server.go that each stands for. *)
Inductive optionKind : Type := KPrefix | KPriority | KJwt | KSignature.

Inductive basicOption : Type :=
| Prefix (group : string)
| Priority
| Jwt (secret : string)
| Signature (sig : SignatureConf).

Definition kind (o : basicOption) : optionKind :=
  match o with
  | Prefix _ => KPrefix
  | Priority => KPriority
  | Jwt _ => KJwt
  | Signature _ => KSignature
  end.

Definition routeOption (o : basicOption) : RouteOption :=
  match o with
  | Prefix group => WithPrefix group
  | Priority => WithPriority
  | Jwt secret => WithJwt secret
  | Signature sig => WithSignature sig
  end.

(** The featuredRoutes that an option leaves when it returns. *)
Definition effect (o : basicOption) (r : featuredRoutes) : featuredRoutes :=
  match o with
  | Prefix group => set_routes (map (prefixed group) (routes r)) r
  | Priority => set_priority true r
  | Jwt secret =>
      set_jwt (set_jwt_secret secret) (set_jwt (set_jwt_enabled true) r)
  | Signature sig =>
      set_signature (set_conf (set_PrivateKeys (PrivateKeys sig)))
        (set_signature (set_conf (set_Expiry (Expiry sig)))
           (set_signature (set_conf (set_Strict (Strict sig)))
              (set_signature (set_signature_enabled true) r)))
  end.

(** A JWT option is valid when its secret passes [validateSecret]. *)
Definition valid (o : basicOption) : Prop :=
  match o with
  | Jwt secret => 8 <= String.length secret
  | _ => True
  end.

End Rest.

(** ** The server and its run options *)

Section Server.

(** [RestConf], [*tls.Config], the two callback types and [http.Handler]
    are only passed around by server.go.  [Proc] is the state of the
    running process that starting an engine acts on. *)
Context {RestConf TLSConfig UnauthorizedCallback UnsignedCallback
         HttpHandler Proc : Type}.

(** Modelled from the spec: the router collaborator of [rest/router],
    whose code is not part of this file.  A router made by [NewRouter]
    carries no fallback handler; [SetNotFoundHandler] and
    [SetNotAllowedHandler] each store their handler (spec section 6). *)
Record Router : Type := mkRouter {
  notFound : option HttpHandler;
  notAllowed : option HttpHandler
}.

(** Modelled from the spec: [router.NewRouter]. *)
Definition NewRouter : Router :=
  {| notFound := None; notAllowed := None |}.

(** Modelled from the spec: [Router.SetNotFoundHandler]. *)
Definition SetNotFoundHandler (h : HttpHandler) (rt : Router) : Router :=
  {| notFound := Some h; notAllowed := notAllowed rt |}.

(** Modelled from the spec: [Router.SetNotAllowedHandler]. *)
Definition SetNotAllowedHandler (h : HttpHandler) (rt : Router) : Router :=
  {| notFound := notFound rt; notAllowed := Some h |}.

(** Modelled from the spec: the engine of [rest/engine.go], whose code is
    not part of this file, as the configuration its setters store
    (spec sections 4.5 and 6): the TLS configuration and the two
    callbacks, each a pointer or function value that may be nil. *)
Record engine : Type := mkEngine {
  conf : RestConf;
  tlsConfig : option TLSConfig;
  unauthorizedCallback : option UnauthorizedCallback;
  unsignedCallback : option UnsignedCallback
}.

(** Modelled from the spec: [newEngine]. *)
Definition newEngine (c : RestConf) : engine :=
  {| conf := c; tlsConfig := None;
     unauthorizedCallback := None; unsignedCallback := None |}.

(** Modelled from the spec: [engine.setTlsConfig] stores the
    configuration. *)
Definition setTlsConfig (cfg : option TLSConfig) (ng : engine) : engine :=
  {| conf := conf ng; tlsConfig := cfg;
     unauthorizedCallback := unauthorizedCallback ng;
     unsignedCallback := unsignedCallback ng |}.

(** Modelled from the spec: [engine.SetUnauthorizedCallback]. *)
Definition SetUnauthorizedCallback (cb : option UnauthorizedCallback)
  (ng : engine) : engine :=
  {| conf := conf ng; tlsConfig := tlsConfig ng;
     unauthorizedCallback := cb;
     unsignedCallback := unsignedCallback ng |}.

(** Modelled from the spec: [engine.SetUnsignedCallback]. *)
Definition SetUnsignedCallback (cb : option UnsignedCallback)
  (ng : engine) : engine :=
  {| conf := conf ng; tlsConfig := tlsConfig ng;
     unauthorizedCallback := unauthorizedCallback ng;
     unsignedCallback := cb |}.

(** What the engine and the configuration do is outside this file:
    [RestConf.SetUp], [engine.Start] and [engine.StartWithRouter] are
    arbitrary, and so is how [logx.Error] records an error in the
    process. *)
Context (SetUp : RestConf -> option error)
        (engine_Start : engine -> M Proc (option error))
        (engine_StartWithRouter : engine -> Router -> M Proc (option error))
        (logx_Error : error -> Proc -> Proc).

Record runOptions : Type := mkRunOptions {
  start : engine -> M Proc (option error)
}.

Record Server : Type := mkServer {
  ngin : engine;
  opts : runOptions
}.

(** [RunOption func(srv *Server)]. *)
Definition RunOption : Type := M Server unit.

(** server.go:44-63.  The result is Go's pair of a [*Server] and an
    [error]; the options run in order on the new server. *)
Definition NewServer (c : RestConf) (options : list RunOption)
  : outcome Server unit + error :=
  match SetUp c with
  | Some err => inr err
  | None =>
      let server :=
        {| ngin := newEngine c;
           opts := {| start := fun ng => engine_Start ng |} |} in
      inl (forRange options (fun opt => opt) server)
  end.

(** server.go:228-236 *)
Definition handleError (err : option error) : M Proc unit :=
  match err with
  | None => ret tt
  | Some ErrServerClosed => ret tt
  | Some e =>
      do modify (logx_Error e) then
      panic (PError e)
  end.

(** server.go:84-86 *)
Definition Start (s : Server) : M Proc unit :=
  let* err := start (opts s) (ngin s) in
  handleError err.

(** server.go:189-195 *)
Definition WithRouter (router : Router) : RunOption :=
  modify (fun server =>
    {| ngin := ngin server;
       opts := {| start := fun ng => engine_StartWithRouter ng router |} |}).

(** server.go:152-156 *)
Definition WithNotFoundHandler (handler : HttpHandler) : RunOption :=
  let rt := NewRouter in
  let rt := SetNotFoundHandler handler rt in
  WithRouter rt.

(** server.go:159-163 *)
Definition WithNotAllowedHandler (handler : HttpHandler) : RunOption :=
  let rt := NewRouter in
  let rt := SetNotAllowedHandler handler rt in
  WithRouter rt.

(** server.go:208-212 *)
Definition WithTLSConfig (cfg : option TLSConfig) : RunOption :=
  modify (fun srv =>
    {| ngin := setTlsConfig cfg (ngin srv); opts := opts srv |}).

(** server.go:215-219 *)
Definition WithUnauthorizedCallback (callback : option UnauthorizedCallback)
  : RunOption :=
  modify (fun srv =>
    {| ngin := SetUnauthorizedCallback callback (ngin srv);
       opts := opts srv |}).

(** server.go:222-226 *)
Definition WithUnsignedCallback (callback : option UnsignedCallback)
  : RunOption :=
  modify (fun srv =>
    {| ngin := SetUnsignedCallback callback (ngin srv);
       opts := opts srv |}).

End Server.

(** ** ToMiddleware (server.go:98-103) *)

Section Convert.

Context {Request World : Type}.

(** [http.Handler]: a value with the method [ServeHTTP], given here by that
    method.  The nil interface value is left out: for a [handler] that
    returns it, taking the method value [handler(handle).ServeHTTP] panics
    when the middleware is applied. *)
Definition HttpHandlerI : Type := Request -> M World unit.

(** [http.HandlerFunc] as an [http.Handler]: its [ServeHTTP] calls it. *)
Definition asHandler (f : @HandlerFunc Request World) : HttpHandlerI :=
  fun r => call f r.

Definition ToMiddleware (handler : HttpHandlerI -> HttpHandlerI)
  : @Middleware Request World :=
  fun handle => Some (handler (asHandler handle)).

End Convert.

(** ** Vocabulary for lists of run options *)

Section RunOptionLists.

Context {RestConf TLSConfig UnauthorizedCallback UnsignedCallback
         HttpHandler Proc : Type}.
Context (engine_StartWithRouter :
           @engine RestConf TLSConfig UnauthorizedCallback UnsignedCallback
           -> @Router HttpHandler -> M Proc (option error)).

(** The run options that server.go defines. *)
Inductive knownRunOption : Type :=
| ORouter (rt : @Router HttpHandler)
| ONotFound (h : HttpHandler)
| ONotAllowed (h : HttpHandler)
| OTLSConfig (cfg : option TLSConfig)
| OUnauthorized (cb : option UnauthorizedCallback)
| OUnsigned (cb : option UnsignedCallback).

Definition runOption (o : knownRunOption)
  : @RunOption RestConf TLSConfig UnauthorizedCallback UnsignedCallback Proc :=
  match o with
  | ORouter rt => WithRouter engine_StartWithRouter rt
  | ONotFound h => WithNotFoundHandler engine_StartWithRouter h
  | ONotAllowed h => WithNotAllowedHandler engine_StartWithRouter h
  | OTLSConfig cfg => WithTLSConfig cfg
  | OUnauthorized cb => WithUnauthorizedCallback cb
  | OUnsigned cb => WithUnsignedCallback cb
  end.

(** The router that an option hands to [WithRouter], if it does. *)
Definition router_of (o : knownRunOption) : option (@Router HttpHandler) :=
  match o with
  | ORouter rt => Some rt
  | ONotFound h => Some (SetNotFoundHandler h NewRouter)
  | ONotAllowed h => Some (SetNotAllowedHandler h NewRouter)
  | _ => None
  end.

(** The call that an option makes on the engine, if it makes one. *)
Definition engine_call (o : knownRunOption)
           (ng : @engine RestConf TLSConfig UnauthorizedCallback
                         UnsignedCallback)
  : @engine RestConf TLSConfig UnauthorizedCallback UnsignedCallback :=
  match o with
  | OTLSConfig cfg => setTlsConfig cfg ng
  | OUnauthorized cb => SetUnauthorizedCallback cb ng
  | OUnsigned cb => SetUnsignedCallback cb ng
  | _ => ng
  end.

(** The router of the last option of a list that hands one over. *)
Fixpoint last_router (os : list knownRunOption)
  : option (@Router HttpHandler) :=
  match os with
  | [] => None
  | o :: os' =>
      match last_router os' with
      | Some rt => Some rt
      | None => router_of o
      end
  end.

End RunOptionLists.

(** ** Vocabulary for paths *)

(** The path starts with a separator. *)
Definition rooted_path (p : string) : Prop :=
  exists t, list_ascii_of_string p = path.slash :: t.

(** ** Vocabulary for lists of route options *)

Section OptionLists.

Context {Duration PrivateKeyConf : Type}.

(** The secret of the last JWT option of a list, the configuration of its
    last Signature option, whether it has a Priority option, and the groups
    of its Prefix options in order. *)
Fixpoint last_jwt (os : list (@basicOption Duration PrivateKeyConf))
  : option string :=
  match os with
  | [] => None
  | o :: os' =>
      match last_jwt os' with
      | Some s => Some s
      | None => match o with Jwt s => Some s | _ => None end
      end
  end.

Fixpoint last_signature (os : list (@basicOption Duration PrivateKeyConf))
  : option (@SignatureConf Duration PrivateKeyConf) :=
  match os with
  | [] => None
  | o :: os' =>
      match last_signature os' with
      | Some g => Some g
      | None => match o with Signature g => Some g | _ => None end
      end
  end.

Fixpoint has_priority (os : list (@basicOption Duration PrivateKeyConf))
  : bool :=
  match os with
  | [] => false
  | o :: os' => match o with Priority => true | _ => has_priority os' end
  end.

Fixpoint groups (os : list (@basicOption Duration PrivateKeyConf))
  : list string :=
  match os with
  | [] => []
  | o :: os' =>
      match o with Prefix g => g :: groups os' | _ => groups os' end
  end.

(** The path [p] after the groups [gs] have been joined to it, one after
    the other. *)
Definition prefix_all (gs : list string) (p : string) : string :=
  fold_left (fun q g => path.Join [g; q]) gs p.

End OptionLists.

(** ** A featuredRoutes value for concrete runs

    The route GET [/users] with a handler that does nothing, and no
    option applied. *)
Definition exampleRoutes : @featuredRoutes unit unit nat string :=
  {| priority := false;
     jwt := {| jwt_enabled := false; jwt_secret := "";
               jwt_prevSecret := "" |};
     signature := {| signature_conf := {| Strict := false; Expiry := 0;
                                          PrivateKeys := [] |};
                     signature_enabled := false |};
     routes := [ {| Method := "GET"; Path := "/users";
                    Handler := Some (fun _ => ret tt) |} ] |}.

(** * Facts *)

(** ** The monad *)

Lemma bind_Done {S A B} (m : M S A) (k : A -> M S B) s a s' :
  m s = Done a s' -> bind m k s = k a s'.
Proof. intros H. unfold bind. now rewrite H. Qed.

Lemma bind_Panicked {S A B} (m : M S A) (k : A -> M S B) s v s' :
  m s = Panicked v s' -> bind m k s = Panicked v s'.
Proof. intros H. unfold bind. now rewrite H. Qed.

Lemma forRange_app_bind {S A} (xs ys : list A) (body : A -> M S unit) s :
  forRange (xs ++ ys) body s
  = (do forRange xs body then forRange ys body) s.
Proof.
  revert s. induction xs as [|x xs IH]; intros s; cbn.
  - reflexivity.
  - unfold bind. destruct (body x s) as [[] s1|v s1]; [|reflexivity].
    rewrite IH. reflexivity.
Qed.

(** ** [path.Clean] and [path.Join] return normalized paths *)

Section PathFacts.

Import path.

Example Clean_ex1 : Clean "/api//users/"%string = "/api/users"%string.
Proof. reflexivity. Qed.
Example Clean_ex2 : Clean "a/./b/../../c/.."%string = "."%string.
Proof. reflexivity. Qed.
Example Clean_ex3 : Clean "../../a/b/../c"%string = "../../a/c"%string.
Proof. reflexivity. Qed.
Example Clean_ex4 : Clean "/../a/b/../../.."%string = "/"%string.
Proof. reflexivity. Qed.
Example Join_ex1 : Join ["/api"; "/users"] = "/api/users"%string.
Proof. reflexivity. Qed.
Example Join_ex2 : Join [""; ""] = ""%string.
Proof. reflexivity. Qed.
Example Join_ex3 : Join ["/"; "/"] = "/"%string.
Proof. reflexivity. Qed.
Example Join_ex4 : Join [""; "a/"] = "a"%string.
Proof. reflexivity. Qed.

Lemma to_bytes_append (b : lazybuf) (c : ascii) :
  w b <= length (buf b) ->
  to_bytes (append b c) = to_bytes b ++ [c]
  /\ buf (append b c) = to_bytes b ++ [c]
  /\ w (append b c) = S (w b)
  /\ w (append b c) <= length (buf (append b c)).
Proof.
  intros Hw. unfold to_bytes, append. cbn.
  assert (Hlen : length (take (w b) (buf b)) = w b)
    by (rewrite length_take; lia).
  repeat split.
  - rewrite take_app_ge by lia. rewrite Hlen.
    replace (S (w b) - w b) with 1 by lia.
    reflexivity.
  - rewrite length_app, Hlen. cbn. lia.
Qed.

Lemma backup_spec (dd : nat) (bf : bytes) :
  forall w1, dd <= w1 ->
    dd <= backup dd bf w1 <= w1
    /\ (backup dd bf w1 = dd \/ bf !! backup dd bf w1 = Some slash).
Proof.
  induction w1 as [|k IH]; intros Hdd.
  - cbn. split; [lia|]. left. lia.
  - cbn [backup].
    destruct (Nat.ltb_spec dd (S k)) as [Hlt|Hge]; cbn [andb].
    + destruct (bool_decide_reflect (bf !! S k = Some slash)) as [Hs|Hs];
        cbn [negb].
      * split; [lia|]. now right.
      * destruct IH as [Hr Hc]; [lia|]. split; [lia|exact Hc].
    + split; [lia|]. left. lia.
Qed.

(** The copy loop appends one path element: bytes that are not
    separators, at least one when it starts on such a byte. *)
Lemma copy_elem_spec (p : bytes) :
  forall k r0 (o : lazybuf),
    w o <= length (buf o) ->
    exists name,
      fst (copy_elem k p r0 o) = r0 + length name
      /\ to_bytes (snd (copy_elem k p r0 o)) = to_bytes o ++ name
      /\ Forall (fun c => c <> slash) name
      /\ w (snd (copy_elem k p r0 o)) <= length (buf (snd (copy_elem k p r0 o)))
      /\ w (snd (copy_elem k p r0 o)) = w o + length name
      /\ (forall ch, 0 < k -> p !! r0 = Some ch -> ch <> slash -> name <> []).
Proof.
  induction k as [|k IH]; intros r0 o Hw.
  - exists []. cbn. rewrite app_nil_r, !Nat.add_0_r.
    repeat split; [constructor|assumption|lia].
  - cbn [copy_elem]. destruct (p !! r0) as [c|] eqn:Hc.
    + destruct (bool_decide_reflect (c = slash)) as [Hs|Hs].
      * exists []. cbn. rewrite app_nil_r, !Nat.add_0_r.
        repeat split; [constructor|assumption|].
        intros ch _ [= <-] Hch. contradiction.
      * destruct (to_bytes_append o c Hw) as (Hb & _ & Hw1 & Hw2).
        destruct (IH (S r0) (append o c) Hw2)
          as (name & Hr & Hbytes & Hname & Hw3 & Hw4 & _).
        exists (c :: name). cbn [length].
        rewrite Hr, Hbytes, Hb, Hw4, Hw1, <- app_assoc. cbn [app].
        repeat split; [lia|now constructor|lia|lia|discriminate].
    + exists []. cbn. rewrite app_nil_r, !Nat.add_0_r.
      repeat split; [constructor|assumption|].
      intros ch _ [=].
Qed.

Lemma no_double_take (c : bytes) (k : nat) :
  no_double c -> no_double (take k c).
Proof.
  intros H i H1 H2.
  apply lookup_take_Some in H1 as [H1 _].
  apply lookup_take_Some in H2 as [H2 _]. eauto.
Qed.

(** Two lists without a double separator concatenate to one when they do
    not meet in two separators. *)
Lemma no_double_app (x y : bytes) :
  no_double x -> no_double y ->
  (last x = Some slash -> head y = Some slash -> False) ->
  no_double (x ++ y).
Proof.
  intros Hx Hy Hxy i H1 H2.
  apply lookup_app_Some in H1 as [H1|[Hle1 H1]];
    apply lookup_app_Some in H2 as [H2|[Hle2 H2]].
  - eauto.
  - apply lookup_lt_Some in H1 as Hlt.
    assert (S i = length x) by lia.
    apply Hxy.
    + rewrite last_lookup. replace (pred (length x)) with i by lia. exact H1.
    + rewrite head_lookup.
      replace (S i - length x) with 0 in H2 by lia. exact H2.
  - apply lookup_lt_Some in H2. lia.
  - replace (S i - length x) with (S (i - length x)) in H2 by lia. eauto.
Qed.

Lemma no_double_elem (name : bytes) :
  Forall (fun c => c <> slash) name -> no_double name.
Proof.
  intros H i H1 _.
  rewrite Forall_lookup in H. now apply (H i slash).
Qed.

Lemma elem_head_last (name : bytes) :
  name <> [] -> Forall (fun c => c <> slash) name ->
  head name <> Some slash /\ last name <> Some slash.
Proof.
  intros Hne H. rewrite Forall_lookup in H. split.
  - rewrite head_lookup. intros E. now apply (H 0 slash).
  - rewrite last_lookup. intros E. now apply (H _ slash E).
Qed.

(** Writing a separator as [Clean] decides it, and then an element, keeps
    the output normalized. *)
Lemma add_elem (rooted : bool) (c name : bytes) :
  no_double c -> ends_ok c -> first_ok rooted c ->
  name <> [] -> Forall (fun c => c <> slash) name ->
  no_double (c ++ sep_for rooted c ++ name)
  /\ ends_ok (c ++ sep_for rooted c ++ name)
  /\ first_ok rooted (c ++ sep_for rooted c ++ name).
Proof.
  intros Hnd Hend Hfirst Hne Hname.
  destruct (elem_head_last name Hne Hname) as [Hhead Hlast].
  split; [|split].
  - apply no_double_app; [assumption| |].
    + apply no_double_app.
      * unfold sep_for. destruct (_ || _); intros [|i] H1 H2; discriminate.
      * now apply no_double_elem.
      * intros _ H. contradiction.
    + intros Hl Hh. specialize (Hend Hl). subst c.
      unfold sep_for in Hh. destruct rooted; cbn in Hfirst, Hh.
      * contradiction.
      * now apply Hfirst.
  - intros Hl. rewrite !last_app in Hl.
    destruct (last name) as [x|] eqn:E.
    + congruence.
    + destruct name; [contradiction|].
      apply last_None in E. discriminate.
  - unfold first_ok in *. destruct rooted.
    + now apply lookup_app_l_Some.
    + destruct c as [|a c]; [|exact Hfirst].
      cbn. now rewrite head_lookup in Hhead.
Qed.

Lemma length_to_bytes (o : lazybuf) :
  w o <= length (buf o) -> length (to_bytes o) = w o.
Proof. intros H. unfold to_bytes. rewrite length_take. lia. Qed.

Lemma take_to_bytes (o : lazybuf) (k : nat) :
  k <= w o -> take k (to_bytes o) = take k (buf o).
Proof.
  intros H. unfold to_bytes. rewrite take_take. f_equal. lia.
Qed.

(** Bytes written after the first [w] do not change the first [dd <= w]. *)
Lemma take_extend (o o' : lazybuf) (x : bytes) (dd : nat) :
  w o <= length (buf o) -> w o' <= length (buf o') ->
  to_bytes o' = to_bytes o ++ x -> dd <= w o ->
  take dd (buf o') = take dd (buf o).
Proof.
  intros Hw Hw' Hx Hdd.
  assert (Hlen : w o' = w o + length x).
  { rewrite <- (length_to_bytes o'), Hx, length_app, length_to_bytes; lia. }
  rewrite <- (take_to_bytes o') by lia.
  rewrite Hx, take_app_le by (rewrite length_to_bytes; lia).
  now apply take_to_bytes.
Qed.

(** The separator written before an element, on the buffer. *)
Lemma append_sep (rooted : bool) (o : lazybuf) :
  w o <= length (buf o) ->
  let o1 := if (rooted && negb (w o =? 1)) || (negb rooted && negb (w o =? 0))
            then append o slash else o in
  to_bytes o1 = to_bytes o ++ sep_for rooted (to_bytes o)
  /\ w o1 <= length (buf o1).
Proof.
  intros Hw. unfold sep_for. rewrite (length_to_bytes o Hw).
  destruct (_ || _).
  - destruct (to_bytes_append o slash Hw) as (H1 & _ & _ & H2). now split.
  - cbn. now rewrite app_nil_r.
Qed.

(** The [..] element, when the output can be backed up. *)
Lemma inv_backtrack (rooted : bool) (s : state) (r' : nat) :
  inv rooted s -> dotdot s < w (out s) ->
  inv rooted
    {| r := r'; dotdot := dotdot s;
       out := {| buf := buf (out s);
                 w := backup (dotdot s) (buf (out s)) (w (out s) - 1) |} |}.
Proof.
  intros [Hw Hdd Hnd Hend Hdend Hfirst Hroot] Hlt.
  destruct (backup_spec (dotdot s) (buf (out s)) (w (out s) - 1))
    as [Hrange Hstop]; [lia|].
  set (w' := backup (dotdot s) (buf (out s)) (w (out s) - 1)) in *.
  assert (Htake : take w' (buf (out s)) = take w' (to_bytes (out s))).
  { symmetry. apply take_to_bytes. lia. }
  constructor; cbn [r dotdot out buf w to_bytes].
  - lia.
  - lia.
  - unfold to_bytes. cbn [buf w]. rewrite Htake. now apply no_double_take.
  - unfold to_bytes. cbn [buf w].
    destruct Hstop as [->|Hslash]; [exact Hdend|].
    intros Hl. exfalso.
    rewrite last_lookup, length_take in Hl.
    destruct w' as [|k]; [now rewrite take_0 in Hl|].
    replace (Init.Nat.pred (S k `min` length (buf (out s)))) with k in Hl by lia.
    apply lookup_take_Some in Hl as [Hl _].
    apply (Hnd k); unfold to_bytes.
    + rewrite lookup_take_lt by lia. exact Hl.
    + rewrite lookup_take_lt by lia. exact Hslash.
  - exact Hdend.
  - unfold first_ok, to_bytes in *. cbn [buf w].
    destruct rooted.
    + specialize (Hroot eq_refl).
      apply lookup_take_Some in Hfirst as [Hfirst _].
      rewrite lookup_take_lt by lia. exact Hfirst.
    + intros H. apply Hfirst.
      apply lookup_take_Some in H as [H Hk].
      rewrite lookup_take_lt by lia. exact H.
  - exact Hroot.
Qed.

(** Writing a separator as needed and then an element [name]. *)
Lemma inv_elem (rooted : bool) (s : state) (o2 : lazybuf) (name : bytes)
      (r' dd' : nat) :
  inv rooted s ->
  name <> [] -> Forall (fun c => c <> slash) name ->
  to_bytes o2
  = to_bytes (out s) ++ sep_for rooted (to_bytes (out s)) ++ name ->
  w o2 <= length (buf o2) ->
  dd' = dotdot s \/ (rooted = false /\ dd' = w o2) ->
  inv rooted {| r := r'; dotdot := dd'; out := o2 |}.
Proof.
  intros [Hw Hdd Hnd Hend Hdend Hfirst Hroot] Hne Hname Hbytes Hw2 Hdd'.
  destruct (add_elem rooted _ name Hnd Hend Hfirst Hne Hname)
    as (Hnd' & Hend' & Hfirst').
  rewrite <- Hbytes in Hnd', Hend', Hfirst'.
  assert (Hlen : w (out s) <= w o2).
  { rewrite <- (length_to_bytes o2 Hw2), Hbytes, length_app,
      (length_to_bytes _ Hw). lia. }
  constructor; cbn [r dotdot out]; try assumption.
  - destruct Hdd' as [->|[_ ->]]; lia.
  - destruct Hdd' as [->|[_ ->]].
    + now rewrite (take_extend (out s) o2 _ (dotdot s) Hw Hw2 Hbytes Hdd).
    + exact Hend'.
  - intros Hr. destruct Hdd' as [->|[Hf _]]; [auto|congruence].
Qed.

(** The [..] element of a path that is not rooted, when the output cannot
    be backed up. *)
Lemma inv_dotdot_elem (s : state) (r' : nat) :
  inv false s ->
  let o1 := if 0 <? w (out s) then append (out s) slash else out s in
  let o2 := append (append o1 dot) dot in
  inv false {| r := r'; dotdot := w o2; out := o2 |}.
Proof.
  intros Hinv o1 o2.
  pose proof (inv_w _ _ Hinv) as Hw.
  destruct (append_sep false (out s) Hw) as [Hb1 Hw1].
  cbn [andb orb negb] in Hb1, Hw1.
  assert (Ho1 : o1 = if negb (w (out s) =? 0)
                     then append (out s) slash else out s).
  { unfold o1. now destruct (w (out s)). }
  rewrite <- Ho1 in Hb1, Hw1.
  destruct (to_bytes_append o1 dot Hw1) as (Hb2 & _ & _ & Hw2).
  destruct (to_bytes_append (append o1 dot) dot Hw2) as (Hb3 & _ & _ & Hw3).
  apply (inv_elem false s o2 [dot; dot]); try assumption.
  - discriminate.
  - repeat constructor; discriminate.
  - unfold o2. rewrite Hb3, Hb2, Hb1, <- !app_assoc. reflexivity.
  - right. split; reflexivity.
Qed.

(** A real path element: the separator as needed, then the bytes up to the
    next separator.  The read position moves on. *)
Lemma inv_real_elem (p : bytes) (rooted : bool) (s : state) (ch : ascii) :
  inv rooted s ->
  r s < length p -> p !! r s = Some ch -> ch <> slash ->
  let o1 := if (rooted && negb (w (out s) =? 1))
               || (negb rooted && negb (w (out s) =? 0))
            then append (out s) slash else out s in
  let res := copy_elem (length p - r s) p (r s) o1 in
  inv rooted {| r := fst res; dotdot := dotdot s; out := snd res |}
  /\ r s < fst res.
Proof.
  intros Hinv Hr Hch Hns o1 res.
  pose proof (inv_w _ _ Hinv) as Hw.
  destruct (append_sep rooted (out s) Hw) as [Hb1 Hw1].
  fold o1 in Hb1, Hw1.
  destruct (copy_elem_spec p (length p - r s) (r s) o1 Hw1)
    as (name & Hfst & Hbytes & Hname & Hw2 & _ & Hne).
  fold res in Hfst, Hbytes, Hw2.
  assert (Hne' : name <> []) by (apply (Hne ch); [lia|assumption..]).
  split.
  - apply (inv_elem rooted s (snd res) name); try assumption.
    + now rewrite Hbytes, Hb1, <- app_assoc.
    + now left.
  - rewrite Hfst. destruct name; [contradiction|]. cbn. lia.
Qed.

Lemma inv_skip (rooted : bool) (s : state) (r' : nat) :
  inv rooted s ->
  inv rooted {| r := r'; dotdot := dotdot s; out := out s |}.
Proof. intros []. now constructor. Qed.

(** One iteration keeps the invariant and moves the read position on. *)
Lemma step_inv (p : bytes) (rooted : bool) (s : state) :
  inv rooted s -> r s < length p ->
  inv rooted (step p rooted s) /\ r s < r (step p rooted s).
Proof.
  intros Hinv Hr. unfold step.
  destruct (is_at p (r s) slash) eqn:E1.
  { split; [now apply inv_skip | cbn; lia]. }
  destruct (is_at p (r s) dot && ((r s + 1 =? length p)
                                  || is_at p (r s + 1) slash)) eqn:E2.
  { split; [now apply inv_skip | cbn; lia]. }
  destruct (is_at p (r s) dot && is_at p (r s + 1) dot
            && ((r s + 2 =? length p) || is_at p (r s + 2) slash)) eqn:E3.
  - destruct (Nat.ltb_spec (dotdot s) (w (out s))) as [Hlt|Hge].
    + split; [now apply inv_backtrack | cbn; lia].
    + destruct rooted; cbn [negb].
      * split; [now apply inv_skip | cbn; lia].
      * split; [now apply inv_dotdot_elem | cbn; lia].
  - destruct (lookup_lt_is_Some_2 p (r s) Hr) as [ch Hch].
    assert (Hns : ch <> slash).
    { intros ->. unfold is_at in E1.
      now rewrite bool_decide_eq_false in E1. }
    pose proof (inv_real_elem p rooted s ch Hinv Hr Hch Hns) as H.
    cbv zeta in H.
    destruct (copy_elem _ _ _ _) as [r' o2]. exact H.
Qed.

(** The loop returns when it is given as many iterations as there are
    bytes left to read, and its result satisfies the invariant. *)
Lemma loop_enough (p : bytes) (rooted : bool) :
  forall fuel s,
    inv rooted s -> length p - r s <= fuel ->
    exists s', loop fuel p rooted s = Some s' /\ inv rooted s'.
Proof.
  induction fuel as [|fuel IH]; intros s Hinv Hfuel; cbn [loop].
  - destruct (Nat.ltb_spec (r s) (length p)); [lia|]. eauto.
  - destruct (Nat.ltb_spec (r s) (length p)) as [Hlt|Hge]; [|eauto].
    destruct (step_inv p rooted s Hinv Hlt) as [Hinv' Hr'].
    apply IH; [assumption|lia].
Qed.

Lemma inv_init (rooted : bool) : inv rooted (init rooted).
Proof.
  destruct rooted; constructor; cbn; try lia; try discriminate;
    try reflexivity; try (intros [|i]; discriminate);
    try (intros _; reflexivity); auto.
Qed.

(** [Clean] returns a path without a double separator, and with a trailing
    separator only when it is the root. *)
Lemma clean_normal (p : bytes) :
  no_double (clean p) /\ ends_ok (clean p).
Proof.
  unfold clean. destruct p as [|c p'].
  - split; [intros [|i]|]; discriminate.
  - set (p := c :: p'). set (rooted := bool_decide (c = slash)).
    destruct (loop_enough p rooted (length p) (init rooted))
      as (s' & -> & Hinv); [apply inv_init|lia|].
    destruct (w (out s') =? 0).
    + split; [intros [|i]|]; discriminate.
    + split; [apply (inv_no_double _ _ Hinv) | apply (inv_ends _ _ Hinv)].
Qed.

Lemma join_normal (elem : list bytes) :
  no_double (join elem) /\ ends_ok (join elem).
Proof.
  unfold join. destruct (_ =? 0).
  - split; [intros [|i]|]; discriminate.
  - apply clean_normal.
Qed.

(** [Join] returns a path without a double separator, and with a trailing
    separator only when it is the root. *)
Lemma Join_normal (elem : list string) :
  ~ has_double_slash (Join elem)
  /\ (has_trailing_slash (Join elem) -> Join elem = "/"%string).
Proof.
  destruct (join_normal (map list_ascii_of_string elem)) as [Hnd Hend].
  unfold has_double_slash, has_trailing_slash, Join.
  rewrite list_ascii_of_string_of_list_ascii.
  set (j := join (map list_ascii_of_string elem)) in *. split.
  - intros (a & b & E). apply (Hnd (length a)); rewrite E.
    + rewrite lookup_app_r, Nat.sub_diag by lia. reflexivity.
    + rewrite lookup_app_r by lia.
      replace (S (length a) - length a) with 1 by lia. reflexivity.
  - intros (a & E). rewrite Hend; [reflexivity|].
    rewrite E, last_snoc. reflexivity.
Qed.

End PathFacts.

(** ** Middleware composition *)

Section MiddlewareFacts.

Context {Request World : Type}.

Abbreviation Route := (@Route Request World).
Abbreviation Middleware := (@Middleware Request World).
Abbreviation loc := nat.
Abbreviation store := (gmap nat (list Route)).

Lemma elems_insert_ne (st : store) l xs rs :
  rs <> Some l -> elems (<[l := xs]> st) rs = elems st rs.
Proof.
  intros Hne. destruct rs as [l'|]; simpl; [|reflexivity].
  rewrite lookup_insert_ne; [reflexivity | congruence].
Qed.

Lemma elems_insert_eq (st : store) l xs :
  elems (<[l := xs]> st) (Some l) = xs.
Proof.
  simpl. now rewrite lookup_insert_eq.
Qed.

Lemma lookup_fresh (st : store) : st !! fresh (dom st) = None.
Proof.
  apply (not_elem_of_dom_1 st). apply is_fresh.
Qed.

(** The write loop of [WithMiddleware], started at index [k] with the
    first [k] routes written: it fills the rest of the new array. *)
Lemma WithMiddleware_loop (mw : Middleware) (rs : slice) (l : loc)
      (xs : list Route) :
  rs <> Some l ->
  forall m k (st : store),
    k + m = length xs ->
    elems st rs = xs ->
    st !! l = Some (map (wrapped mw) (take k xs) ++ replicate m zeroRoute) ->
    forRange (seq k m)
      (fun i => let* route := index rs i in
                assign (Some l) i
                  {| Method := Method route;
                     Path := Path route;
                     Handler := mw (Handler route) |}) st
    = Done tt (<[l := map (wrapped mw) xs]> st).
Proof.
  intros Hne m. induction m as [|m IH]; intros k st Hlen Hrs Hl.
  - simpl. unfold ret. f_equal.
    rewrite Nat.add_0_r in Hlen. subst k.
    rewrite firstn_all, app_nil_r in Hl.
      symmetry. now apply insert_id.
  - assert (Hk : k < length xs) by lia.
    destruct (lookup_lt_is_Some_2 xs k Hk) as [x Hx].
    cbn [seq forRange].
    set (body := fun i : nat => _).
    assert (Hbody : body k st
              = Done tt (<[l := map (wrapped mw) (take (S k) xs)
                                 ++ replicate m zeroRoute]> st)).
    { unfold body, bind, index, assign. rewrite Hrs, Hx.
      cbn [elems]. rewrite Hl. cbn [default id].
      rewrite decide_True.
      2:{ rewrite length_app, length_map, length_take, length_replicate. lia. }
      do 2 f_equal.
      rewrite (take_S_r xs k x Hx), map_app, <- app_assoc. cbn [map app].
      rewrite insert_app_r_alt by (rewrite length_map, length_take; lia).
      rewrite length_map, length_take.
      replace (k - k `min` length xs) with 0 by lia.
      reflexivity. }
    rewrite (bind_Done _ _ _ _ _ Hbody).
    rewrite (IH (S k)).
    + now rewrite insert_insert_eq.
    + lia.
    + now rewrite elems_insert_ne.
    + now rewrite lookup_insert_eq.
Qed.

(** [WithMiddleware] allocates one array and leaves in it the wrapped
    routes of [rs], in order. *)
Lemma WithMiddleware_run (mw : Middleware) (rs : slice) (st : store) :
  WithMiddleware mw rs st
  = Done (Some (fresh (dom st)))
         (<[fresh (dom st) := map (wrapped mw) (elems st rs)]> st).
Proof.
  unfold WithMiddleware, len, make.
  unfold bind at 1. unfold bind at 1.
  set (l := fresh (dom st)). set (xs := elems st rs).
  destruct (decide (rs = Some l)) as [->|Hne].
  - assert (Hxs : xs = []).
    { unfold xs, l. cbn [elems]. now rewrite lookup_fresh. }
    rewrite Hxs. reflexivity.
  - erewrite bind_Done.
    2:{ apply (WithMiddleware_loop mw rs l xs Hne (length xs) 0).
        - reflexivity.
        - now apply elems_insert_ne.
        - now rewrite lookup_insert_eq. }
    unfold ret. f_equal.
    now rewrite insert_insert_eq.
Qed.

Lemma wrapped_wrapped (f g : Middleware) (route : Route) :
  wrapped f (wrapped g route) = wrapped (fun h => f (g h)) route.
Proof. reflexivity. Qed.

Lemma nest_snoc (ms : list Middleware) (m : Middleware) h :
  nest (ms ++ [m]) h = nest ms (m h).
Proof. unfold nest. now rewrite fold_right_app. Qed.

(** The loop of [WithMiddlewares] entered with [n = i + 1]: the
    middlewares [ms[0..n)] end up nested around each handler, [ms[0]]
    outermost; no array of the store it started from is written. *)
Lemma WithMiddlewares_from_run (ms : list Middleware) :
  forall n (rs : slice) (st : store),
    n <= length ms ->
    exists rs' st',
      WithMiddlewares_from ms n rs st = Done rs' st'
      /\ elems st' rs' = map (wrapped (nest (take n ms))) (elems st rs)
      /\ st ⊆ st'.
Proof.
  induction n as [|i IH]; intros rs st Hn.
  - exists rs, st. cbn. unfold ret. repeat split; [|reflexivity].
    rewrite take_0. cbn.
    induction (elems st rs) as [|[mt pt ht] xs IHxs]; [reflexivity|].
    cbn. now rewrite <- IHxs.
  - destruct (lookup_lt_is_Some_2 ms i) as [m Hm]; [lia|].
    cbn [WithMiddlewares_from]. rewrite Hm.
    rewrite (bind_Done _ _ _ _ _ (WithMiddleware_run m rs st)).
    set (l := fresh (dom st)).
    set (st1 := <[l := map (wrapped m) (elems st rs)]> st).
    destruct (IH (Some l) st1) as (rs' & st' & Hrun & Hel & Hsub); [lia|].
    exists rs', st'. split; [exact Hrun|]. split.
    + rewrite Hel. unfold st1. rewrite elems_insert_eq.
      rewrite (take_S_r ms i m Hm), map_map.
      apply map_ext. intros route.
      rewrite wrapped_wrapped. unfold wrapped. f_equal.
      now rewrite nest_snoc.
    + transitivity st1; [|exact Hsub].
      unfold st1.
      apply insert_subseteq. apply lookup_fresh.
Qed.

(** Calling a handler wrapped in phased middlewares runs the pre-phases
    in the order of the sequence, the handler, and the post-phases in the
    reverse order. *)
Lemma phased_order (ps : list ((Request -> M World unit)
                               * (Request -> M World unit)))
      (h : HandlerFunc) (r : Request) :
  forall w,
    call (nest (map phased ps) h) r w
    = (do forRange (map fst ps) (fun pre => pre r) then
       do call h r then
       forRange (rev (map snd ps)) (fun post => post r)) w.
Proof.
  induction ps as [|[pre post] ps IH]; intros w; cbn.
  - unfold bind, ret. destruct (call h r w) as [[] s|v s]; reflexivity.
  - unfold bind. destruct (pre r w) as [[] w1|v w1]; [|reflexivity].
    rewrite IH. unfold bind.
    destruct (forRange (map fst ps) (λ pre0, pre0 r) w1) as [[] w2|v w2];
      [|reflexivity].
    destruct (call h r w2) as [[] w3|v w3]; [|reflexivity].
    rewrite forRange_app_bind. unfold bind.
    destruct (forRange (rev (map snd ps)) (λ post0, post0 r) w3)
      as [[] w4|v w4]; [|reflexivity].
    cbn. unfold bind, ret. destruct (post r w4) as [[] w5|v w5]; reflexivity.
Qed.

(** C8. [WithMiddleware(mw, rs...)] returns a new slice of the same length
    as [rs] whose routes have the methods and paths of the routes of [rs],
    in order, and the handlers [mw] applied to theirs; the slice is a
    newly allocated array, every array of the store is left as it was and
    [rs] still denotes the same routes. *)
Theorem WithMiddleware_wraps_each_route (mw : Middleware) (rs : slice)
        (st : store) :
  exists l st',
    WithMiddleware mw rs st = Done (Some l) st'
    /\ st !! l = None
    /\ length (elems st' (Some l)) = length (elems st rs)
    /\ map Method (elems st' (Some l)) = map Method (elems st rs)
    /\ map Path (elems st' (Some l)) = map Path (elems st rs)
    /\ map Handler (elems st' (Some l)) = map mw (map Handler (elems st rs))
    /\ st ⊆ st'
    /\ elems st' rs = elems st rs.
Proof.
  exists (fresh (dom st)), (<[fresh (dom st) := map (wrapped mw) (elems st rs)]> st).
  pose proof (lookup_fresh st) as Hfresh.
  split; [apply WithMiddleware_run|]. split; [exact Hfresh|].
  rewrite elems_insert_eq, length_map, !map_map. cbn.
  repeat split.
  - now apply insert_subseteq.
  - destruct (decide (rs = Some (fresh (dom st)))) as [->|Hne].
    + rewrite elems_insert_eq. cbn. now rewrite Hfresh.
    + now apply elems_insert_ne.
Qed.

(** C9. With an empty middleware sequence [WithMiddlewares] returns the
    slice [rs] it was given, and the store, and so the routes and their
    handlers, are as before. *)
Theorem WithMiddlewares_empty (rs : slice) (st : store) :
  WithMiddlewares [] rs st = Done rs st.
Proof. reflexivity. Qed.

(** C1. [WithMiddlewares(ms, rs...)] nests the middlewares around each
    handler with the first of [ms] outermost; and for middlewares with a
    pre-phase and a post-phase, calling a handler of the result runs the
    pre-phases in the order of the sequence, then the original handler,
    then the post-phases in the reverse order. *)
Theorem WithMiddlewares_first_is_outermost
        (ms : list Middleware)
        (ps : list ((Request -> M World unit) * (Request -> M World unit)))
        (rs : slice) (st : store) :
  (exists rs' st',
      WithMiddlewares ms rs st = Done rs' st'
      /\ elems st' rs' = map (wrapped (nest ms)) (elems st rs))
  /\ (exists rs' st',
        WithMiddlewares (map phased ps) rs st = Done rs' st'
        /\ Forall2
             (fun route route' : Route =>
                Method route' = Method route
                /\ Path route' = Path route
                /\ forall r w,
                    call (Handler route') r w
                    = (do forRange (map fst ps) (fun pre => pre r) then
                       do call (Handler route) r then
                       forRange (rev (map snd ps)) (fun post => post r)) w)
             (elems st rs) (elems st' rs')).
Proof.
  split.
  - destruct (WithMiddlewares_from_run ms (length ms) rs st)
      as (rs' & st' & Hrun & Hel & _); [lia|].
    exists rs', st'. split; [exact Hrun|].
    now rewrite firstn_all in Hel.
  - destruct (WithMiddlewares_from_run (map phased ps)
                (length (map phased ps)) rs st)
      as (rs' & st' & Hrun & Hel & _); [lia|].
    exists rs', st'. split; [exact Hrun|].
    rewrite Hel, firstn_all. clear Hel Hrun.
    induction (elems st rs) as [|route xs IH]; cbn; constructor; [|exact IH].
    cbn. repeat split. intros r w. apply phased_order.
Qed.

End MiddlewareFacts.

(** ** Route options *)

Section OptionFacts.

Context {Request World Duration PrivateKeyConf : Type}.

Abbreviation Route := (@Route Request World).
Abbreviation featuredRoutes :=
  (@featuredRoutes Request World Duration PrivateKeyConf).
Abbreviation basicOption := (@basicOption Duration PrivateKeyConf).

Lemma validateSecret_short {S} (secret : string) (s : S) :
  String.length secret < 8 ->
  validateSecret secret s
  = Panicked (PString "secret's length can't be less than 8") s.
Proof.
  intros H. unfold validateSecret.
  destruct (Nat.ltb_spec (String.length secret) 8); [reflexivity | lia].
Qed.

Lemma validateSecret_long {S} (secret : string) (s : S) :
  8 <= String.length secret ->
  validateSecret secret s = Done tt s.
Proof.
  intros H. unfold validateSecret.
  destruct (Nat.ltb_spec (String.length secret) 8); [lia | reflexivity].
Qed.

(** C2. For a secret shorter than 8 bytes the option [WithJwt(secret)]
    panics with its message and the featuredRoutes is as it was; for a
    secret of at least 8 bytes it returns, with [jwt.enabled] true and
    [jwt.secret] the secret, and nothing else changed. *)
Theorem WithJwt_validates (secret : string) (r : featuredRoutes) :
  (String.length secret < 8 ->
   WithJwt secret r
   = Panicked (PString "secret's length can't be less than 8") r)
  /\ (8 <= String.length secret ->
      exists r',
        WithJwt secret r = Done tt r'
        /\ jwt_enabled (jwt r') = true
        /\ jwt_secret (jwt r') = secret
        /\ jwt_prevSecret (jwt r') = jwt_prevSecret (jwt r)
        /\ priority r' = priority r
        /\ signature r' = signature r
        /\ routes r' = routes r).
Proof.
  split; intros H; unfold WithJwt.
  - now rewrite (bind_Panicked _ _ _ _ _ (validateSecret_short secret r H)).
  - rewrite (bind_Done _ _ _ _ _ (validateSecret_long secret r H)).
    eexists. split; [reflexivity|]. cbn. repeat split.
Qed.

(** C3. For a secret of at least 8 bytes [WithJwtTransition(secret,
    prevSecret)] returns whatever the length of [prevSecret] is, with
    [jwt.enabled] true, [jwt.secret] the secret and [jwt.prevSecret] the
    previous secret, and nothing else changed; so it does for
    ["longenough1"] and ["x"]; for a secret shorter than 8 bytes it
    panics with the featuredRoutes as it was. *)
Theorem WithJwtTransition_validates_secret_only
        (secret prevSecret : string) (r : featuredRoutes) :
  (8 <= String.length secret ->
   exists r',
     WithJwtTransition secret prevSecret r = Done tt r'
     /\ jwt_enabled (jwt r') = true
     /\ jwt_secret (jwt r') = secret
     /\ jwt_prevSecret (jwt r') = prevSecret
     /\ priority r' = priority r
     /\ signature r' = signature r
     /\ routes r' = routes r)
  /\ (exists r',
        WithJwtTransition "longenough1" "x" r = Done tt r'
        /\ jwt_enabled (jwt r') = true
        /\ jwt_secret (jwt r') = "longenough1"
        /\ jwt_prevSecret (jwt r') = "x")
  /\ (String.length secret < 8 ->
      WithJwtTransition secret prevSecret r
      = Panicked (PString "secret's length can't be less than 8") r).
Proof.
  split; [|split].
  - intros H. unfold WithJwtTransition.
    rewrite (bind_Done _ _ _ _ _ (validateSecret_long secret r H)).
    eexists. split; [reflexivity|]. cbn. repeat split.
  - eexists. split; [reflexivity|]. cbn. repeat split.
  - intros H. unfold WithJwtTransition.
    now rewrite (bind_Panicked _ _ _ _ _ (validateSecret_short secret r H)).
Qed.

(** The loop of [WithPrefix] builds the prefixed routes in order. *)
Lemma WithPrefix_loop (group : string) (xs acc : list Route) :
  fold_left (fun (acc : list Route) (rt : Route) =>
               let p := path.Join [group; Path rt] in
               acc ++ [ {| Method := Method rt; Path := p;
                           Handler := Handler rt |} ]) xs acc
  = acc ++ map (prefixed group) xs.
Proof.
  revert acc. induction xs as [|rt xs IH]; intros acc; cbn.
  - now rewrite app_nil_r.
  - rewrite IH, <- app_assoc. reflexivity.
Qed.

Lemma WithPrefix_run (group : string) (r : featuredRoutes) :
  WithPrefix group r
  = Done tt (set_routes (map (prefixed group) (routes r)) r).
Proof.
  unfold WithPrefix, bind, get, modify. now rewrite WithPrefix_loop.
Qed.

(** C4, as amended.  [WithPrefix(group)] replaces each route by one with
    the same method and handler, whose path is [path.Join(group, path)]:
    a path without two adjacent separators and without a trailing
    separator, unless it is the root [/]; nothing else of the
    featuredRoutes changes.  Options apply in order: [WithPrefix("/api")]
    turns the route GET [/users] into GET [/api/users], and
    [WithPrefix("/v1")] after it into GET [/v1/api/users]. *)
Theorem WithPrefix_joins_paths
        (group : string) (r : featuredRoutes)
        (h : @HandlerFunc Request World) :
  (exists r',
      WithPrefix group r = Done tt r'
      /\ map Method (routes r') = map Method (routes r)
      /\ map Handler (routes r') = map Handler (routes r)
      /\ map Path (routes r')
         = map (fun rt => path.Join [group; Path rt]) (routes r)
      /\ Forall (fun rt' : Route =>
                   ~ path.has_double_slash (Path rt')
                   /\ (path.has_trailing_slash (Path rt')
                       -> Path rt' = "/"%string))
                (routes r')
      /\ priority r' = priority r
      /\ jwt r' = jwt r
      /\ signature r' = signature r)
  /\ applyRouteOptions [WithPrefix "/api"]
       (set_routes [ {| Method := "GET"; Path := "/users";
                        Handler := h |} ] r)
     = Done tt (set_routes [ {| Method := "GET"; Path := "/api/users";
                                Handler := h |} ] r)
  /\ applyRouteOptions [WithPrefix "/api"; WithPrefix "/v1"]
       (set_routes [ {| Method := "GET"; Path := "/users";
                        Handler := h |} ] r)
     = Done tt (set_routes [ {| Method := "GET"; Path := "/v1/api/users";
                                Handler := h |} ] r).
Proof.
  split; [|split; reflexivity].
  exists (set_routes (map (prefixed group) (routes r)) r).
  split; [apply WithPrefix_run|].
  cbn [routes set_routes priority jwt signature].
  rewrite !map_map. cbn [prefixed Method Path Handler].
  repeat split.
  apply Forall_map, Forall_forall. intros rt _. cbn [prefixed Path].
  apply Join_normal.
Qed.

(** A valid option returns, with its effect. *)
Lemma routeOption_run (o : basicOption) (r : featuredRoutes) :
  valid o -> routeOption o r = Done tt (effect o r).
Proof.
  destruct o as [group| |secret|sig]; cbn [routeOption valid]; intros H.
  - apply WithPrefix_run.
  - reflexivity.
  - unfold WithJwt.
    now rewrite (bind_Done _ _ _ _ _ (validateSecret_long secret r H)).
  - reflexivity.
Qed.

Lemma effect_comm (o1 o2 : basicOption) (r : featuredRoutes) :
  kind o1 <> kind o2 ->
  effect o2 (effect o1 r) = effect o1 (effect o2 r).
Proof.
  destruct o1, o2; cbn [kind]; intros Hk; try congruence; reflexivity.
Qed.

(** C6. Two options of different kinds among Prefix, Priority, JWT with a
    valid secret and Signature return, and leave the same featuredRoutes
    in either order. *)
Theorem routeOptions_commute (o1 o2 : basicOption) (r : featuredRoutes) :
  kind o1 <> kind o2 -> valid o1 -> valid o2 ->
  exists r',
    applyRouteOptions [routeOption o1; routeOption o2] r = Done tt r'
    /\ applyRouteOptions [routeOption o2; routeOption o1] r = Done tt r'.
Proof.
  intros Hk H1 H2. exists (effect o2 (effect o1 r)).
  unfold applyRouteOptions. cbn [forRange]. split.
  - rewrite (bind_Done _ _ _ _ _ (routeOption_run o1 r H1)).
    now rewrite (bind_Done _ _ _ _ _ (routeOption_run o2 _ H2)).
  - rewrite (bind_Done _ _ _ _ _ (routeOption_run o2 r H2)).
    rewrite (bind_Done _ _ _ _ _ (routeOption_run o1 _ H1)).
    now rewrite effect_comm.
Qed.

End OptionFacts.

(** ** The server *)

Section ServerFacts.

Context {RestConf TLSConfig UnauthorizedCallback UnsignedCallback
         HttpHandler Proc : Type}.
Context (SetUp : RestConf -> option error)
        (engine_Start :
           @engine RestConf TLSConfig UnauthorizedCallback UnsignedCallback
           -> M Proc (option error))
        (engine_StartWithRouter :
           @engine RestConf TLSConfig UnauthorizedCallback UnsignedCallback
           -> @Router HttpHandler -> M Proc (option error))
        (logx_Error : error -> Proc -> Proc).

Abbreviation Server :=
  (@Server RestConf TLSConfig UnauthorizedCallback UnsignedCallback Proc).
Abbreviation RunOption :=
  (@RunOption RestConf TLSConfig UnauthorizedCallback UnsignedCallback Proc).
Abbreviation Router := (@Router HttpHandler).

Abbreviation handleError' := (handleError logx_Error).
Abbreviation Start' := (Start logx_Error).
Abbreviation WithRouter' := (WithRouter engine_StartWithRouter).
Abbreviation WithNotFoundHandler' :=
  (WithNotFoundHandler engine_StartWithRouter).
Abbreviation WithNotAllowedHandler' :=
  (WithNotAllowedHandler engine_StartWithRouter).
Abbreviation NewServer' := (NewServer SetUp engine_Start).

(** The run options, applied in order to a server, as [NewServer] does. *)
Abbreviation applyRunOptions :=
  (fun options : list RunOption => forRange options (fun opt => opt)).

(** C5. [handleError] returns without logging for nil and for
    [http.ErrServerClosed]; for any other error it logs the error and
    panics with it.  [Server.Start] hands the result of the start strategy
    to [handleError]. *)
Theorem Start_handles_error (s : Server) (p : Proc) :
  handleError' None p = Done tt p
  /\ handleError' (Some ErrServerClosed) p = Done tt p
  /\ (forall msg,
        handleError' (Some (Err msg)) p
        = Panicked (PError (Err msg)) (logx_Error (Err msg) p))
  /\ Start' s p
     = match start (opts s) (ngin s) p with
       | Done None p' => Done tt p'
       | Done (Some ErrServerClosed) p' => Done tt p'
       | Done (Some (Err msg)) p' =>
           Panicked (PError (Err msg)) (logx_Error (Err msg) p')
       | Panicked v p' => Panicked v p'
       end.
Proof.
  repeat split.
  unfold Start, bind.
  destruct (start (opts s) (ngin s) p) as [[[|msg]|] p'|v p']; reflexivity.
Qed.

(** C7. [NewServer] applies the run options in the order given, and a
    later option overwrites what an earlier one set: of two
    [WithTLSConfig] options the engine keeps the configuration of the
    later, and of two [WithRouter] options the start strategy starts the
    engine with the router of the later. *)
Theorem later_RunOption_overwrites
        (c : RestConf) (options : list RunOption)
        (cfg1 cfg2 : option TLSConfig) (rt1 rt2 : Router) (s : Server) :
  NewServer' c options
  = match SetUp c with
    | Some err => inr err
    | None =>
        inl (applyRunOptions options
               {| ngin := newEngine c;
                  opts := {| start := fun ng => engine_Start ng |} |})
    end
  /\ (exists s',
        applyRunOptions [WithTLSConfig cfg1; WithTLSConfig cfg2] s
        = Done tt s'
        /\ applyRunOptions [WithTLSConfig cfg2] s = Done tt s'
        /\ tlsConfig (ngin s') = cfg2)
  /\ NewServer' c [WithTLSConfig cfg1; WithTLSConfig cfg2]
     = NewServer' c [WithTLSConfig cfg2]
  /\ (exists s',
        applyRunOptions [WithRouter' rt1; WithRouter' rt2] s = Done tt s'
        /\ applyRunOptions [WithRouter' rt2] s = Done tt s'
        /\ start (opts s') = fun ng => engine_StartWithRouter ng rt2)
  /\ NewServer' c [WithRouter' rt1; WithRouter' rt2]
     = NewServer' c [WithRouter' rt2].
Proof.
  split; [reflexivity|]. split; [|split; [|split]].
  - eexists. repeat split.
  - unfold NewServer. destruct (SetUp c); reflexivity.
  - eexists. repeat split.
  - unfold NewServer. destruct (SetUp c); reflexivity.
Qed.

(** C10. [WithNotFoundHandler] and [WithNotAllowedHandler] each make a new
    router that carries their handler only, and set the start strategy to
    start the engine with it; after both, in either order, the router that
    [Start] uses is the one of the option applied later, which carries
    only that option's handler: the server is as if the later option had
    been applied alone. *)
Theorem fallback_handlers_do_not_combine
        (h1 h2 : HttpHandler) (s : Server) (p : Proc) :
  WithNotFoundHandler' h1 = WithRouter' (SetNotFoundHandler h1 NewRouter)
  /\ WithNotAllowedHandler' h2
     = WithRouter' (SetNotAllowedHandler h2 NewRouter)
  /\ (exists s' rt,
        applyRunOptions [WithNotFoundHandler' h1; WithNotAllowedHandler' h2] s
        = Done tt s'
        /\ Start' s' p
           = (let* err := engine_StartWithRouter (ngin s') rt in
              handleError' err) p
        /\ ngin s' = ngin s
        /\ notFound rt = None
        /\ notAllowed rt = Some h2)
  /\ (exists s' rt,
        applyRunOptions [WithNotAllowedHandler' h2; WithNotFoundHandler' h1] s
        = Done tt s'
        /\ Start' s' p
           = (let* err := engine_StartWithRouter (ngin s') rt in
              handleError' err) p
        /\ ngin s' = ngin s
        /\ notFound rt = Some h1
        /\ notAllowed rt = None)
  /\ applyRunOptions [WithNotFoundHandler' h1; WithNotAllowedHandler' h2] s
     = applyRunOptions [WithNotAllowedHandler' h2] s
  /\ applyRunOptions [WithNotAllowedHandler' h2; WithNotFoundHandler' h1] s
     = applyRunOptions [WithNotFoundHandler' h1] s.
Proof.
  split; [reflexivity|]. split; [reflexivity|].
  split; [|split; [|split; reflexivity]].
  - exists {| ngin := ngin s;
              opts := {| start := fun ng =>
                           engine_StartWithRouter ng
                             (SetNotAllowedHandler h2 NewRouter) |} |},
           (SetNotAllowedHandler h2 NewRouter).
    repeat split.
  - exists {| ngin := ngin s;
              opts := {| start := fun ng =>
                           engine_StartWithRouter ng
                             (SetNotFoundHandler h1 NewRouter) |} |},
           (SetNotFoundHandler h1 NewRouter).
    repeat split.
Qed.

End ServerFacts.

(** * Concrete runs *)

(** Three middlewares that record their phases around a handler that
    records itself: the phases appear in the order m1, m2, m3, handler,
    m3-post, m2-post, m1-post. *)
Example WithMiddlewares_trace :
  let log (e : string) : unit -> M (list string) unit :=
    fun _ => modify (fun t => t ++ [e]) in
  let ms := map phased [(log "m1", log "m1-post");
                        (log "m2", log "m2-post");
                        (log "m3", log "m3-post")] in
  let st : gmap nat (list (@Route unit (list string))) :=
    {[ 0 := [ {| Method := "GET"; Path := "/users";
                 Handler := Some (log "handler") |} ] ]} in
  match WithMiddlewares ms (Some 0) st with
  | Done rs' st' =>
      map (fun route => (Method route, Path route, call (Handler route) tt []))
          (elems st' rs')
      = [("GET", "/users",
          Done tt ["m1"; "m2"; "m3"; "handler";
                   "m3-post"; "m2-post"; "m1-post"])]
      /\ elems st' (Some 0) = elems st (Some 0)
  | Panicked _ _ => False
  end.
Proof. vm_compute. split; reflexivity. Qed.

(** [WithPrefix("/")] on the route GET [/] leaves the path [/], which ends
    in a separator. *)
Lemma WithPrefix_root_keeps_separator :
  let r : @featuredRoutes unit unit nat string :=
    {| priority := false;
       jwt := {| jwt_enabled := false; jwt_secret := "";
                 jwt_prevSecret := "" |};
       signature := {| signature_conf := {| Strict := false; Expiry := 0;
                                            PrivateKeys := [] |};
                       signature_enabled := false |};
       routes := [ {| Method := "GET"; Path := "/";
                      Handler := Some (fun _ => ret tt) |} ] |} in
  exists r',
    WithPrefix "/" r = Done tt r'
    /\ map Path (routes r') = ["/"]
    /\ ~ Forall (fun rt' => ~ path.has_trailing_slash (Path rt')) (routes r').
Proof.
  intros r. eexists. split; [apply WithPrefix_run|].
  split; [reflexivity|].
  intros H. apply Forall_inv in H. apply H. now exists [].
Qed.

(** The options [WithPrefix("/api")] and [WithJwt("longenough1")] on the
    route GET [/users] commute. *)
Lemma routeOptions_commute_witness :
  let r : @featuredRoutes unit unit nat string :=
    {| priority := false;
       jwt := {| jwt_enabled := false; jwt_secret := "";
                 jwt_prevSecret := "" |};
       signature := {| signature_conf := {| Strict := false; Expiry := 0;
                                            PrivateKeys := [] |};
                       signature_enabled := false |};
       routes := [ {| Method := "GET"; Path := "/users";
                      Handler := Some (fun _ => ret tt) |} ] |} in
  let o1 : @basicOption nat string := Prefix "/api" in
  let o2 : @basicOption nat string := Jwt "longenough1" in
  kind o1 <> kind o2 /\ valid o1 /\ valid o2
  /\ exists r',
      applyRouteOptions [routeOption o1; routeOption o2] r = Done tt r'
      /\ applyRouteOptions [routeOption o2; routeOption o1] r = Done tt r'.
Proof.
  intros r o1 o2.
  assert (Hk : kind o1 <> kind o2) by discriminate.
  assert (H1 : valid o1) by exact I.
  assert (H2 : valid o2) by (simpl; lia).
  repeat split; try assumption.
  exact (routeOptions_commute o1 o2 r Hk H1 H2).
Defined.

(** [WithJwt] on a secret of 5 bytes and on one of 11 bytes. *)
Example WithJwt_runs :
  let r : @featuredRoutes unit unit nat string :=
    {| priority := false;
       jwt := {| jwt_enabled := false; jwt_secret := "";
                 jwt_prevSecret := "" |};
       signature := {| signature_conf := {| Strict := false; Expiry := 0;
                                            PrivateKeys := [] |};
                       signature_enabled := false |};
       routes := [] |} in
  WithJwt "short" r
  = Panicked (PString "secret's length can't be less than 8") r
  /\ WithJwt "longenough1" r
     = Done tt (set_jwt (fun _ => {| jwt_enabled := true;
                                     jwt_secret := "longenough1";
                                     jwt_prevSecret := "" |}) r)
  /\ WithJwtTransition "longenough1" "x" r
     = Done tt (set_jwt (fun _ => {| jwt_enabled := true;
                                     jwt_secret := "longenough1";
                                     jwt_prevSecret := "x" |}) r).
Proof. repeat split. Qed.

(** A server whose engine fails to start, one whose engine returns
    [http.ErrServerClosed], and one started with a router after
    [WithNotFoundHandler] and [WithNotAllowedHandler]; the process state is
    the list of errors logged. *)
Example Start_runs :
  let logx_Error (e : error) (p : list error) := p ++ [e] in
  let failing (_ : @engine unit unit unit unit) : M (list error) (option error) :=
    ret (Some (Err "listen tcp :80: bind: address already in use")) in
  let closing (_ : @engine unit unit unit unit) : M (list error) (option error) :=
    ret (Some ErrServerClosed) in
  let withRouter (_ : @engine unit unit unit unit) (rt : @Router string)
    : M (list error) (option error) :=
    match notFound rt with
    | Some _ => ret (Some (Err "router has a not-found handler"))
    | None => ret None
    end in
  let server start :=
    {| ngin := newEngine tt; opts := {| start := start |} |} in
  Start logx_Error (server failing) []
  = Panicked (PError (Err "listen tcp :80: bind: address already in use"))
             [Err "listen tcp :80: bind: address already in use"]
  /\ Start logx_Error (server closing) [] = Done tt []
  /\ match forRange [WithNotFoundHandler withRouter "404";
                     WithNotAllowedHandler withRouter "405"]
             (fun opt => opt) (server failing) with
     | Done _ s => Start logx_Error s [] = Done tt []
     | Panicked _ _ => False
     end.
Proof. repeat split. Qed.

(** * Further properties *)

(** ** Middleware composition *)

Section MiddlewareMore.

Context {Request World : Type}.

Abbreviation Route' := (@Route Request World).
Abbreviation Middleware' := (@Middleware Request World).
Abbreviation store' := (gmap nat (list Route')).

(** The loop of [WithMiddlewares] only reads the middlewares below its
    index. *)
Lemma WithMiddlewares_from_app_l (ms1 ms2 : list Middleware') :
  forall n (rs : slice) (st : store'),
    n <= length ms1 ->
    WithMiddlewares_from (ms1 ++ ms2) n rs st = WithMiddlewares_from ms1 n rs st.
Proof.
  induction n as [|i IH]; intros rs st Hn; [reflexivity|].
  cbn [WithMiddlewares_from].
  rewrite lookup_app_l by lia.
  destruct (ms1 !! i) as [m|]; [|reflexivity].
  unfold bind. destruct (WithMiddleware m rs st) as [rs' st'|v st'];
    [|reflexivity].
  apply IH. lia.
Qed.

Lemma WithMiddlewares_from_app_r (ms1 ms2 : list Middleware') :
  forall k (rs : slice) (st : store'),
    k <= length ms2 ->
    WithMiddlewares_from (ms1 ++ ms2) (length ms1 + k) rs st
    = (let* rs' := WithMiddlewares_from ms2 k rs in
       WithMiddlewares_from ms1 (length ms1) rs') st.
Proof.
  induction k as [|k IH]; intros rs st Hk.
  - rewrite Nat.add_0_r. cbn [WithMiddlewares_from]. unfold bind, ret.
    now apply WithMiddlewares_from_app_l.
  - rewrite Nat.add_succ_r. cbn [WithMiddlewares_from].
    rewrite lookup_app_r by lia.
    replace (length ms1 + k - length ms1) with k by lia.
    destruct (ms2 !! k) as [m|] eqn:Hm.
    + unfold bind.
      destruct (WithMiddleware m rs st) as [rs' st'|v st']; [|reflexivity].
      rewrite IH by lia. reflexivity.
    + apply lookup_ge_None in Hm. lia.
Qed.

(** X1. Wrapping with the middlewares [ms1 ++ ms2] is wrapping with [ms2]
    and then wrapping the result with [ms1]: the same slice comes back and
    the same arrays are allocated. *)
Theorem WithMiddlewares_app (ms1 ms2 : list Middleware') (rs : slice)
        (st : store') :
  WithMiddlewares (ms1 ++ ms2) rs st
  = (let* rs' := WithMiddlewares ms2 rs in WithMiddlewares ms1 rs') st.
Proof.
  unfold WithMiddlewares. rewrite length_app.
  now apply WithMiddlewares_from_app_r.
Qed.



End MiddlewareMore.

(** ** Route options *)

Section OptionMore.

Context {Request World Duration PrivateKeyConf : Type}.

Abbreviation featuredRoutes' :=
  (@featuredRoutes Request World Duration PrivateKeyConf).
Abbreviation basicOption' := (@basicOption Duration PrivateKeyConf).
Abbreviation RouteOption' :=
  (@RouteOption Request World Duration PrivateKeyConf).

(** A list of valid options returns, with the effects in order. *)
Lemma applyRouteOptions_run (os : list basicOption') :
  forall r : featuredRoutes',
    Forall valid os ->
    applyRouteOptions (map routeOption os) r
    = Done tt (fold_left (fun r o => effect o r) os r).
Proof.
  unfold applyRouteOptions.
  induction os as [|o os IH]; intros r Hv; [reflexivity|].
  inversion Hv as [|? ? Ho Hos]; subst.
  cbn [map forRange fold_left].
  rewrite (bind_Done _ _ _ _ _ (routeOption_run o r Ho)).
  now apply IH.
Qed.

Lemma effect_frame (o : basicOption') (r : featuredRoutes') :
  jwt_prevSecret (jwt (effect o r)) = jwt_prevSecret (jwt r)
  /\ map Method (routes (effect o r)) = map Method (routes r)
  /\ map Handler (routes (effect o r)) = map Handler (routes r).
Proof.
  destruct o; cbn; rewrite ?map_map; repeat split.
Qed.

(** X3. A list of options among Prefix, Priority, JWT with a valid secret
    and Signature never panics, and the last option of each kind decides:
    priority is set if it was or a Priority option is in the list; the JWT
    setting is enabled with the secret of the last JWT option, the previous
    secret kept; the signature setting is enabled with the configuration of
    the last Signature option; the routes keep their number, methods and
    handlers, and each path has the groups joined to it in order. *)
Theorem routeOptions_last_wins (os : list basicOption') (r : featuredRoutes') :
  Forall valid os ->
  exists r',
    applyRouteOptions (map routeOption os) r = Done tt r'
    /\ priority r' = priority r || has_priority os
    /\ jwt r' = match last_jwt os with
                | Some s => {| jwt_enabled := true; jwt_secret := s;
                               jwt_prevSecret := jwt_prevSecret (jwt r) |}
                | None => jwt r
                end
    /\ signature r' = match last_signature os with
                      | Some g => {| signature_conf := g;
                                     signature_enabled := true |}
                      | None => signature r
                      end
    /\ map Method (routes r') = map Method (routes r)
    /\ map Handler (routes r') = map Handler (routes r)
    /\ map Path (routes r') = map (prefix_all (groups os)) (map Path (routes r)).
Proof.
  intros Hv. eexists. split; [now apply applyRouteOptions_run|].
  clear Hv. revert r.
  induction os as [|o os IH]; intros r; cbn [fold_left].
  - cbn. rewrite orb_false_r.
    repeat split. unfold prefix_all. cbn. now rewrite map_id.
  - destruct (IH (effect o r)) as (Hp & Hj & Hs & Hm & Hh & Hpath).
    destruct (effect_frame o r) as (Hprev & Hm0 & Hh0).
    rewrite Hp, Hj, Hs, Hm, Hh, Hpath, Hprev, Hm0, Hh0.
    cbn [has_priority last_jwt last_signature groups].
    destruct o as [g| |s|[st ex ks]]; cbn [effect priority jwt signature routes
      set_routes set_priority set_jwt set_signature];
      repeat split;
      try (destruct (last_jwt os); reflexivity);
      try (destruct (last_signature os); reflexivity);
      try (destruct (priority r); reflexivity).
    rewrite !map_map. reflexivity.
Qed.

(** X4. When a JWT option with a secret shorter than 8 bytes is reached in
    a list of route options, the list panics there: the options before it
    have taken effect, the JWT setting is not touched and the options after
    it do not run.  It is so for [WithJwt] and for [WithJwtTransition]. *)
Theorem short_secret_stops_options
        (pre post : list RouteOption') (secret prevSecret : string)
        (r r1 : featuredRoutes') :
  applyRouteOptions pre r = Done tt r1 ->
  String.length secret < 8 ->
  applyRouteOptions (pre ++ WithJwt secret :: post) r
  = Panicked (PString "secret's length can't be less than 8") r1
  /\ applyRouteOptions (pre ++ WithJwtTransition secret prevSecret :: post) r
     = Panicked (PString "secret's length can't be less than 8") r1.
Proof.
  intros Hpre Hlen. unfold applyRouteOptions in *.
  rewrite !forRange_app_bind.
  rewrite !(bind_Done _ _ _ _ _ Hpre). cbn [forRange].
  unfold WithJwt, WithJwtTransition.
  unfold bind.
  now rewrite !(validateSecret_short secret r1 Hlen).
Qed.

(** X5. [WithJwt] sets the secret and leaves the previous secret alone: after
    [WithJwtTransition(s1, p)], [WithJwt(s2)] replaces [s1] by [s2] and the
    previous secret is still [p].  [WithJwtTransition] after [WithJwt]
    leaves what it would have left alone. *)
Theorem WithJwt_keeps_prevSecret (s1 s2 p : string) (r : featuredRoutes') :
  8 <= String.length s1 -> 8 <= String.length s2 ->
  (exists r',
      applyRouteOptions [WithJwtTransition s1 p; WithJwt s2] r = Done tt r'
      /\ jwt r' = {| jwt_enabled := true; jwt_secret := s2;
                     jwt_prevSecret := p |}
      /\ priority r' = priority r
      /\ signature r' = signature r
      /\ routes r' = routes r)
  /\ applyRouteOptions [WithJwt s1; WithJwtTransition s2 p] r
     = WithJwtTransition s2 p r.
Proof.
  intros H1 H2. unfold applyRouteOptions. cbn [forRange].
  unfold WithJwt, WithJwtTransition. split.
  - eexists. split.
    + unfold bind. rewrite (validateSecret_long s1 r H1).
      cbn. rewrite (validateSecret_long s2 _ H2). reflexivity.
    + cbn. repeat split.
  - unfold bind.
    rewrite (validateSecret_long s1 r H1), (validateSecret_long s2 r H2).
    cbn. rewrite (validateSecret_long s2 _ H2). reflexivity.
Qed.

(** X6. [WithSignature(sig)] never panics; it leaves the signature setting
    enabled with exactly the configuration [sig], whatever the setting was,
    and nothing else of the featuredRoutes changes. *)
Theorem WithSignature_replaces (sig : @SignatureConf Duration PrivateKeyConf)
        (r : featuredRoutes') :
  exists r',
    WithSignature sig r = Done tt r'
    /\ signature r' = {| signature_conf := sig; signature_enabled := true |}
    /\ priority r' = priority r
    /\ jwt r' = jwt r
    /\ routes r' = routes r.
Proof.
  eexists. split; [reflexivity|]. destruct sig. cbn. repeat split.
Qed.

End OptionMore.

(** ** Paths under a prefix *)

Section PathMore.

Import path.

(** [Clean] never returns the empty path. *)
Lemma clean_nonempty (p : bytes) : clean p <> [].
Proof.
  unfold clean. destruct p as [|c p']; [discriminate|].
  set (p := c :: p'). set (rooted := bool_decide (c = slash)).
  destruct (loop_enough p rooted (length p) (init rooted))
    as (s' & -> & Hinv); [apply inv_init|lia|].
  destruct (Nat.eqb_spec (w (out s')) 0) as [E|E]; [discriminate|].
  intros H. apply (f_equal (@length ascii)) in H.
  rewrite (length_to_bytes _ (inv_w _ _ Hinv)) in H. cbn in H. lia.
Qed.

(** [Clean] returns a rooted path exactly for a rooted path. *)
Lemma clean_first (c : ascii) (p' : bytes) :
  clean (c :: p') !! 0 = Some slash <-> c = slash.
Proof.
  unfold clean.
  set (p := c :: p'). set (rooted := bool_decide (c = slash)).
  destruct (loop_enough p rooted (length p) (init rooted))
    as (s' & -> & Hinv); [apply inv_init|lia|].
  pose proof (inv_first _ _ Hinv) as Hfirst.
  pose proof (inv_rooted _ _ Hinv) as Hroot.
  pose proof (inv_dotdot _ _ Hinv) as Hdd.
  unfold rooted in *.
  destruct (bool_decide_reflect (c = slash)) as [Hc|Hc]; cbn in Hfirst.
  - specialize (Hroot eq_refl).
    destruct (Nat.eqb_spec (w (out s')) 0) as [E|E]; [lia|].
    split; auto.
  - destruct (Nat.eqb_spec (w (out s')) 0) as [E|E].
    + split; [discriminate|contradiction].
    + split; [contradiction|intros; contradiction].
Qed.

(** The two-element [Join]: empty for two empty elements, and otherwise
    [Clean] of the elements that are not empty, with a separator between. *)
Lemma join_two (g p : bytes) :
  join [g; p]
  = match g, p with
    | [], [] => []
    | [], _ => clean p
    | _, _ => clean (g ++ slash :: p)
    end.
Proof.
  unfold join. cbn [map list_sum join_elems length].
  destruct g as [|a g], p as [|b p]; cbn; try reflexivity.
  - now rewrite app_nil_r.
  - now rewrite <- app_assoc.
Qed.

Lemma head_slash (x : bytes) :
  (exists t, x = slash :: t) <-> x !! 0 = Some slash.
Proof.
  split.
  - intros [t ->]. reflexivity.
  - destruct x as [|a x]; [discriminate|]. intros [= ->]. eauto.
Qed.

Lemma Join_two (g p : string) :
  list_ascii_of_string (Join [g; p])
  = join [list_ascii_of_string g; list_ascii_of_string p].
Proof. unfold Join. now rewrite list_ascii_of_string_of_list_ascii. Qed.

(** The joined path is empty only for an empty group and an empty path. *)
Lemma Join_empty (g p : string) :
  Join [g; p] = ""%string <-> g = ""%string /\ p = ""%string.
Proof.
  split.
  - intros H. apply (f_equal list_ascii_of_string) in H.
    rewrite Join_two, join_two in H.
    destruct g as [|a g]; cbn [list_ascii_of_string] in H.
    + destruct p as [|b p]; [auto|]. cbn [list_ascii_of_string] in H.
      now apply clean_nonempty in H.
    + now apply clean_nonempty in H.
  - intros [-> ->]. reflexivity.
Qed.

(** The joined path is rooted exactly when the group followed by the path
    is. *)
Lemma Join_rooted (g p : string) :
  rooted_path (Join [g; p]) <-> rooted_path (g ++ p).
Proof.
  unfold rooted_path. rewrite !head_slash, Join_two, join_two.
  destruct g as [|a g].
  - change ("" ++ p)%string with p.
    destruct p as [|b p]; [reflexivity|]. cbn [list_ascii_of_string].
    rewrite clean_first. cbn. split; congruence.
  - change (String a g ++ p)%string with (String a (g ++ p)).
    cbn [list_ascii_of_string app].
    rewrite clean_first. cbn. split; congruence.
Qed.

End PathMore.

Section PrefixMore.

Context {Request World Duration PrivateKeyConf : Type}.

(** X7. After [WithPrefix(group)] the path of a route is empty only if the
    group and the route's path were both empty; in every other case the
    route has a path of at least one byte. *)
Theorem WithPrefix_empty_path
        (group : string)
        (r : @featuredRoutes Request World Duration PrivateKeyConf) :
  exists r',
    WithPrefix group r = Done tt r'
    /\ Forall2 (fun rt rt' : @Route Request World =>
                  Path rt' = ""%string
                  <-> group = ""%string /\ Path rt = ""%string)
               (routes r) (routes r').
Proof.
  eexists. split; [apply WithPrefix_run|].
  cbn [routes set_routes].
  induction (routes r) as [|rt xs IH]; cbn [map]; constructor; [|exact IH].
  apply Join_empty.
Qed.

(** X8. After [WithPrefix(group)] the path of a route starts with a
    separator exactly when the group followed by the route's path does: a
    group that starts with a separator gives rooted paths, and an empty
    group keeps rooted paths rooted and the others not. *)
Theorem WithPrefix_rooted
        (group : string)
        (r : @featuredRoutes Request World Duration PrivateKeyConf) :
  exists r',
    WithPrefix group r = Done tt r'
    /\ Forall2 (fun rt rt' : @Route Request World =>
                  rooted_path (Path rt') <-> rooted_path (group ++ Path rt))
               (routes r) (routes r').
Proof.
  eexists. split; [apply WithPrefix_run|].
  cbn [routes set_routes].
  induction (routes r) as [|rt xs IH]; cbn [map]; constructor; [|exact IH].
  apply Join_rooted.
Qed.

End PrefixMore.

(** ** Lists of run options *)

Section RunOptionMore.

Context {RestConf TLSConfig UnauthorizedCallback UnsignedCallback
         HttpHandler Proc : Type}.
Context (SetUp : RestConf -> option error)
        (engine_Start :
           @engine RestConf TLSConfig UnauthorizedCallback UnsignedCallback
           -> M Proc (option error))
        (engine_StartWithRouter :
           @engine RestConf TLSConfig UnauthorizedCallback UnsignedCallback
           -> @Router HttpHandler -> M Proc (option error))
        (logx_Error : error -> Proc -> Proc).

Abbreviation Server'' :=
  (@Server RestConf TLSConfig UnauthorizedCallback UnsignedCallback Proc).
Abbreviation knownRunOption' :=
  (@knownRunOption TLSConfig UnauthorizedCallback UnsignedCallback
                   HttpHandler).
Abbreviation runOption' :=
  (@runOption RestConf TLSConfig UnauthorizedCallback UnsignedCallback
              HttpHandler Proc engine_StartWithRouter).

(** What one option leaves of a server. *)
Lemma runOption_run (o : knownRunOption') (s : Server'') :
  runOption' o s
  = Done tt
      {| ngin := engine_call o (ngin s);
         opts := match router_of o with
                 | Some rt =>
                     {| start := fun ng => engine_StartWithRouter ng rt |}
                 | None => opts s
                 end |}.
Proof. destruct o; reflexivity. Qed.

(** X9. A list of the run options that server.go defines never panics.
    After it the start strategy starts the engine with the router of the
    last option among [WithRouter], [WithNotFoundHandler] and
    [WithNotAllowedHandler], and is the one the server had when the list
    has none of them; the engine has received the calls of the other
    options, in order, and nothing from the router options. *)
Theorem runOptions_last_router_wins (os : list knownRunOption') (s : Server'') :
  exists s',
    forRange (map runOption' os) (fun opt => opt) s = Done tt s'
    /\ start (opts s')
       = match last_router os with
         | Some rt => fun ng => engine_StartWithRouter ng rt
         | None => start (opts s)
         end
    /\ ngin s' = fold_left (fun ng o => engine_call o ng) os (ngin s).
Proof.
  revert s. induction os as [|o os IH]; intros s.
  - exists s. repeat split.
  - cbn [map forRange fold_left last_router].
    rewrite (bind_Done _ _ _ _ _ (runOption_run o s)).
    destruct (IH {| ngin := engine_call o (ngin s);
                    opts := match router_of o with
                            | Some rt =>
                                {| start := fun ng =>
                                     engine_StartWithRouter ng rt |}
                            | None => opts s
                            end |})
      as (s' & Hrun & Hstart & Hngin).
    exists s'. split; [exact Hrun|]. split; [|exact Hngin].
    rewrite Hstart. cbn [opts].
    destruct (last_router os); [reflexivity|].
    destruct (router_of o); reflexivity.
Qed.

(** X10. [NewServer] returns the error of a configuration that fails to set
    up, and runs no option then.  Otherwise, given run options that
    server.go defines, it returns a server on the engine made from the
    configuration, which has received the calls of the options; [Start] on
    that server starts the engine with the router of the last router option,
    or by [engine.Start] when there is none, and hands the result to
    [handleError]. *)
Theorem NewServer_known_options
        (c : RestConf) (options : list (@RunOption RestConf TLSConfig
                                          UnauthorizedCallback
                                          UnsignedCallback Proc))
        (os : list knownRunOption') (p : Proc) :
  match SetUp c with
  | Some err =>
      NewServer SetUp engine_Start c options = inr err
  | None =>
      exists s',
        NewServer SetUp engine_Start c (map runOption' os) = inl (Done tt s')
        /\ ngin s' = fold_left (fun ng o => engine_call o ng) os (newEngine c)
        /\ Start logx_Error s' p
           = (let* err := match last_router os with
                          | Some rt => engine_StartWithRouter (ngin s') rt
                          | None => engine_Start (ngin s')
                          end in
              handleError logx_Error err) p
  end.
Proof.
  unfold NewServer. destruct (SetUp c) as [err|]; [reflexivity|].
  destruct (runOptions_last_router_wins os
              {| ngin := newEngine c;
                 opts := {| start := fun ng => engine_Start ng |} |})
    as (s' & Hrun & Hstart & Hngin).
  exists s'. split; [now rewrite Hrun|]. split; [exact Hngin|].
  unfold Start. rewrite Hstart. cbn [opts start].
  destruct (last_router os); reflexivity.
Qed.

End RunOptionMore.

(** ** Converted middlewares *)

Section ConvertMore.

Context {Request World : Type}.

Abbreviation HttpHandlerI' := (@HttpHandlerI Request World).

(** Converted wrappers nest as the wrappers do. *)
Lemma ToMiddleware_nest (hs : list (HttpHandlerI' -> HttpHandlerI'))
      (handle : @HandlerFunc Request World) :
  asHandler (nest (map ToMiddleware hs) handle)
  = fold_right (fun h next => h next) (asHandler handle) hs.
Proof.
  induction hs as [|h hs IH]; [reflexivity|].
  cbn [map nest fold_right]. fold (nest (map ToMiddleware hs) handle).
  unfold ToMiddleware at 1. now rewrite IH.
Qed.

(** X11. [WithMiddlewares] on wrappers of [http.Handler] converted by
    [ToMiddleware] returns routes whose handlers serve a request as the
    wrappers themselves do when nested, the first outermost, around the
    original handler taken as an [http.Handler]. *)
Theorem WithMiddlewares_ToMiddleware
        (hs : list (HttpHandlerI' -> HttpHandlerI'))
        (rs : slice) (st : gmap nat (list (@Route Request World))) :
  exists rs' st',
    WithMiddlewares (map ToMiddleware hs) rs st = Done rs' st'
    /\ Forall2
         (fun route route' : @Route Request World =>
            Method route' = Method route
            /\ Path route' = Path route
            /\ forall r w,
                call (Handler route') r w
                = fold_right (fun h next => h next)
                    (asHandler (Handler route)) hs r w)
         (elems st rs) (elems st' rs').
Proof.
  destruct (WithMiddlewares_from_run (map ToMiddleware hs)
              (length (map ToMiddleware hs)) rs st)
    as (rs' & st' & Hrun & Hel & _); [lia|].
  exists rs', st'. split; [exact Hrun|].
  rewrite Hel, firstn_all. clear Hel Hrun.
  induction (elems st rs) as [|route xs IH]; cbn [map]; constructor;
    [|exact IH].
  cbn [wrapped Method Path Handler]. repeat split. intros r w.
  change (call (nest (map ToMiddleware hs) (Handler route)) r w)
    with (asHandler (nest (map ToMiddleware hs) (Handler route)) r w).
  now rewrite ToMiddleware_nest.
Qed.

End ConvertMore.

(** ** Prefixes and middlewares *)

Section PrefixMiddleware.

Context {Request World Duration PrivateKeyConf : Type}.

(** X12. [WithPrefix] rewrites paths only and [WithMiddleware] handlers
    only: prefixing the routes that [WithMiddleware] returns gives the
    routes that [WithMiddleware] makes of the prefixed routes. *)
Theorem WithPrefix_WithMiddleware
        (mw : @Middleware Request World) (group : string)
        (rs : slice) (st : gmap nat (list (@Route Request World)))
        (r : @featuredRoutes Request World Duration PrivateKeyConf) :
  exists rs' st' r1 r2,
    WithMiddleware mw rs st = Done rs' st'
    /\ WithPrefix group (set_routes (elems st' rs') r) = Done tt r1
    /\ WithPrefix group (set_routes (elems st rs) r) = Done tt r2
    /\ routes r1 = map (wrapped mw) (routes r2).
Proof.
  do 4 eexists.
  split; [apply WithMiddleware_run|].
  split; [apply WithPrefix_run|].
  split; [apply WithPrefix_run|].
  cbn [routes set_routes]. rewrite elems_insert_eq, !map_map.
  reflexivity.
Qed.

End PrefixMiddleware.

(** ** Concrete runs of the further properties *)

(** The options Prefix [/api], JWT, Priority, JWT and Prefix [/v1] on the
    route GET [/users]. *)
Lemma routeOptions_last_wins_witness :
  let os : list (@basicOption nat string) :=
    [Prefix "/api"; Jwt "longenough1"; Priority; Jwt "longenough2";
     Prefix "/v1"] in
  Forall valid os
  /\ exists r',
      applyRouteOptions (map routeOption os) exampleRoutes = Done tt r'
      /\ priority r' = priority exampleRoutes || has_priority os
      /\ jwt r' = match last_jwt os with
                  | Some s =>
                      {| jwt_enabled := true; jwt_secret := s;
                         jwt_prevSecret := jwt_prevSecret (jwt exampleRoutes) |}
                  | None => jwt exampleRoutes
                  end
      /\ signature r' = match last_signature os with
                        | Some g => {| signature_conf := g;
                                       signature_enabled := true |}
                        | None => signature exampleRoutes
                        end
      /\ map Method (routes r') = map Method (routes exampleRoutes)
      /\ map Handler (routes r') = map Handler (routes exampleRoutes)
      /\ map Path (routes r')
         = map (prefix_all (groups os)) (map Path (routes exampleRoutes)).
Proof.
  intros os.
  assert (Hv : Forall valid os).
  { unfold os. repeat constructor; simpl; lia. }
  split; [exact Hv|].
  exact (routeOptions_last_wins os exampleRoutes Hv).
Defined.

(** A secret of 5 bytes after the option Prefix [/api]. *)
Lemma short_secret_stops_options_witness :
  let r1 := set_routes [ {| Method := "GET"; Path := "/api/users";
                            Handler := Some (fun _ => ret tt) |} ]
                       exampleRoutes in
  applyRouteOptions [WithPrefix "/api"] exampleRoutes = Done tt r1
  /\ String.length "short" < 8
  /\ applyRouteOptions ([WithPrefix "/api"] ++ WithJwt "short" :: [WithPriority])
       exampleRoutes
     = Panicked (PString "secret's length can't be less than 8") r1
  /\ applyRouteOptions
       ([WithPrefix "/api"] ++ WithJwtTransition "short" "old" :: [WithPriority])
       exampleRoutes
     = Panicked (PString "secret's length can't be less than 8") r1.
Proof.
  intros r1.
  assert (Hpre : applyRouteOptions [WithPrefix "/api"] exampleRoutes
                 = Done tt r1) by reflexivity.
  assert (Hlen : String.length "short" < 8) by (simpl; lia).
  split; [exact Hpre|]. split; [exact Hlen|].
  exact (short_secret_stops_options [WithPrefix "/api"] [WithPriority]
           "short" "old" exampleRoutes r1 Hpre Hlen).
Defined.

(** The secrets [longenough1] and [longenough2] and the previous secret
    [old]. *)
Lemma WithJwt_keeps_prevSecret_witness :
  8 <= String.length "longenough1" /\ 8 <= String.length "longenough2"
  /\ (exists r',
         applyRouteOptions
           [WithJwtTransition "longenough1" "old"; WithJwt "longenough2"]
           exampleRoutes = Done tt r'
         /\ jwt r' = {| jwt_enabled := true; jwt_secret := "longenough2";
                        jwt_prevSecret := "old" |}
         /\ priority r' = priority exampleRoutes
         /\ signature r' = signature exampleRoutes
         /\ routes r' = routes exampleRoutes)
  /\ applyRouteOptions
       [WithJwt "longenough1"; WithJwtTransition "longenough2" "old"]
       exampleRoutes
     = WithJwtTransition "longenough2" "old" exampleRoutes.
Proof.
  assert (H1 : 8 <= String.length "longenough1") by (simpl; lia).
  assert (H2 : 8 <= String.length "longenough2") by (simpl; lia).
  split; [exact H1|]. split; [exact H2|].
  exact (WithJwt_keeps_prevSecret "longenough1" "longenough2" "old"
           exampleRoutes H1 H2).
Defined.
